(** * WAM NFC Audio Box: the tag decoder, the command dispatch and the
      persisted volume of [WAM_NFC_Audio_Box.ino], embedded and verified.

    The sketch is embedded shallowly.  C [int] arithmetic is 32-bit
    two's-complement arithmetic on [Z]; bytes are [Byte.byte]; [float] is IEEE
    754 binary32 as given by the standard library's [SpecFloat]; arrays are
    lists whose every index access is checked, an access outside the array
    being undefined behaviour ([None]).  Globals, the EEPROM, the SD card and
    the audio engine live in an explicit [World] threaded through a state and
    error monad, which also records the externally visible events. *)

From Stdlib Require Import ZArith List Lia Bool.
From Stdlib Require Import Strings.Byte.
From Stdlib Require Strings.String.
Import String.StringSyntax.
From Stdlib Require Import Floats.SpecFloat.
Import ListNotations.
Open Scope Z_scope.

(** ** C integers and bytes *)

Module CInt.

Definition INT_MAX : Z := 2147483647.
Definition INT_MIN : Z := -2147483648.

(** Reduction of a mathematical integer to the 32-bit [int] it becomes. *)
Definition wrap32 (z : Z) : Z := (z + 2147483648) mod 4294967296 - 2147483648.

Definition add (a b : Z) : Z := wrap32 (a + b).
Definition sub (a b : Z) : Z := wrap32 (a - b).

(** Integer promotion of a [uint8_t]. *)
Definition u8 (b : byte) : Z := Z.of_N (Byte.to_N b).

(** Conversion of an [int] to [uint8_t]: reduction modulo 256. *)
Definition to_u8 (z : Z) : byte :=
  match Byte.of_N (Z.to_N (z mod 256)) with
  | Some b => b
  | None => x00
  end.

End CInt.

(** ** State and error monad

    [M S A] is a computation over a state [S] that returns an [A], or has
    undefined behaviour ([None]). *)

Definition M (S A : Type) : Type := S -> option (A * S).

Definition ret {S A} (a : A) : M S A := fun s => Some (a, s).

Definition bind {S A B} (m : M S A) (k : A -> M S B) : M S B :=
  fun s => match m s with
           | Some (a, s') => k a s'
           | None => None
           end.

Definition undefined {S A} : M S A := fun _ => None.

Definition get {S} : M S S := fun s => Some (s, s).

Definition modify {S} (f : S -> S) : M S unit := fun s => Some (tt, f s).

Declare Scope monad_scope.
Delimit Scope monad_scope with monad.
Notation "x <- m ;; k" := (bind m (fun x => k))
  (at level 61, m at next level, right associativity) : monad_scope.
Notation "m ;;; k" := (bind m (fun _ => k))
  (at level 61, right associativity) : monad_scope.
Open Scope monad_scope.

(** [for (int i = lo; i < hi; i++) body], where the body may leave the loop
    with a result ([Some r]: a [return] or a [break]).  The loop makes
    [hi - lo] iterations at most, counted by the first argument. *)
Fixpoint for_iter {S R} (n : nat) (i : Z) (body : Z -> M S (option R))
  : M S (option R) :=
  match n with
  | O => ret None
  | S n' =>
      r <- body i ;;
      match r with
      | Some x => ret (Some x)
      | None => for_iter n' (CInt.add i 1) body
      end
  end.

Definition for_int {S R} (lo hi : Z) (body : Z -> M S (option R))
  : M S (option R) :=
  for_iter (Z.to_nat (hi - lo)) lo body.

(** ** Arrays *)

Definition in_array {A} (k : Z) (l : list A) : bool :=
  (0 <=? k) && (k <? Z.of_nat (length l)).

Fixpoint update {A} (n : nat) (v : A) (l : list A) : list A :=
  match l, n with
  | [], _ => []
  | _ :: t, O => v :: t
  | h :: t, S n' => h :: update n' v t
  end.

(** Read of [a[k]] for an array that is not modified. *)
Definition load {S} (a : list byte) (k : Z) : M S byte :=
  if in_array k a then ret (nth (Z.to_nat k) a x00) else undefined.

(** Write [a[k] = v] to the array held in the state. *)
Definition store (k : Z) (v : byte) : M (list byte) unit :=
  fun a => if in_array k a then Some (tt, update (Z.to_nat k) v a) else None.

(** ** NDEF text record decoder *)

Section Decoder.

(** [data] is the array the pointer [data] addresses; the state of the
    monad is the array [textOutput] addresses. *)
Variable data : list byte.
Variable dataLength : Z.
Variable maxTextLength : Z.

(** [memcpy(textOutput + dst, &data[src], n)], byte by byte. *)
Fixpoint memcpy_data (dst src : Z) (n : nat) : M (list byte) unit :=
  match n with
  | O => ret tt
  | S n' =>
      b <- load data src ;;
      store dst b ;;;
      memcpy_data (dst + 1) (src + 1) n'
  end.

(** [data[i] == 0xD1 && data[i + 1] == 0x01 && data[i + 3] == 0x54], with
    the short-circuit evaluation of [&&]. *)
Definition header_at (i : Z) : M (list byte) bool :=
  b0 <- load data i ;;
  if CInt.u8 b0 =? 0xD1 then
    b1 <- load data (CInt.add i 1) ;;
    if CInt.u8 b1 =? 0x01 then
      b3 <- load data (CInt.add i 3) ;;
      ret (CInt.u8 b3 =? 0x54)
    else ret false
  else ret false.

(** Body of the scanning loop at offset [i]: [Some true] is [return true],
    [None] is falling through to the next iteration. *)
Definition parse_body (i : Z) : M (list byte) (option bool) :=
  hit <- header_at i ;;
  if hit then
    payloadLength <- load data (CInt.add i 2) ;;
    statusByte <- load data (CInt.add i 4) ;;
    let langCodeLength := Z.land (CInt.u8 statusByte) 0x3F in
    let textStart := CInt.add (CInt.add i 5) langCodeLength in
    let textLength :=
      CInt.sub (CInt.sub (CInt.u8 payloadLength) 1) langCodeLength in
    if (0 <? textLength) && (textLength <? maxTextLength)
       && (CInt.add textStart textLength <=? dataLength)
    then
      memcpy_data 0 textStart (Z.to_nat textLength) ;;;
      store textLength x00 ;;;
      ret (Some true)
    else ret None
  else ret None.

Definition parseNDEFTextRecord : M (list byte) bool :=
  r <- for_int 0 (CInt.sub dataLength 6) parse_body ;;
  match r with
  | Some b => ret b
  | None => ret false
  end.

End Decoder.

(** ** Floating point

    [float] is IEEE 754 binary32 and [double] binary64, both with rounding to
    nearest, ties to even, as [SpecFloat] defines them. *)

Module F64.
Definition prec : Z := 53.
Definition emax : Z := 1024.
Definition of_int (z : Z) : spec_float := binary_normalize prec emax z 0 false.
Definition div : spec_float -> spec_float -> spec_float := SFdiv prec emax.
(** The decimal literal [n/d] of type [double]. *)
Definition literal (n d : Z) : spec_float := div (of_int n) (of_int d).
End F64.

Module F32.
Definition prec : Z := 24.
Definition emax : Z := 128.
Definition float : Type := spec_float.

Definition add : float -> float -> float := SFadd prec emax.
Definition sub : float -> float -> float := SFsub prec emax.
Definition mul : float -> float -> float := SFmul prec emax.
Definition ltb : float -> float -> bool := SFltb.
Definition leb : float -> float -> bool := SFleb.

(** Conversion of an [int] to [float]. *)
Definition of_int (z : Z) : float := binary_normalize prec emax z 0 false.

(** Conversion of a [double] to [float]. *)
Definition of_double (d : spec_float) : float :=
  match d with
  | S754_finite s m e => binary_round prec emax s m e
  | _ => d
  end.

(** The cast [(int) f]: truncation toward zero; undefined when the value
    is not a number or does not fit an [int]. *)
Definition to_int (f : float) : option Z :=
  match f with
  | S754_zero _ => Some 0
  | S754_finite s m e =>
      let a := if 0 <=? e then Z.shiftl (Zpos m) e
               else Z.shiftr (Zpos m) (- e) in
      let z := if s then - a else a in
      if (CInt.INT_MIN <=? z) && (z <=? CInt.INT_MAX) then Some z else None
  | _ => None
  end.
End F32.

(** ** The device: globals, EEPROM, SD card, audio engine *)

Inductive Event : Type :=
| EepromWrite (address : Z) (value : byte)
| MixerGain (mixer : nat) (channel : Z) (level : F32.float)
| Play (filename : list byte)         (* play(), then wait while isPlaying() *)
| SerialPrintln (text : list byte).

Record World : Type := {
  currentVolume : F32.float;          (* the global of that name *)
  eeprom : Z -> byte;                 (* EEPROM cells by address *)
  sd_exists : list byte -> bool;      (* SD.exists, on the file's name *)
  events : list Event                 (* what the device did, oldest first *)
}.

Definition set_currentVolume (v : F32.float) : M World unit :=
  modify (fun w => {| currentVolume := v; eeprom := eeprom w;
                      sd_exists := sd_exists w; events := events w |}).

Definition emit (e : Event) : M World unit :=
  modify (fun w => {| currentVolume := currentVolume w; eeprom := eeprom w;
                      sd_exists := sd_exists w; events := events w ++ [e] |}).

(** [EEPROM.write(address, value)], the value converted to [uint8_t]. *)
Definition EEPROM_write (address value : Z) : M World unit :=
  modify (fun w =>
    {| currentVolume := currentVolume w;
       eeprom := fun a => if a =? address then CInt.to_u8 value else eeprom w a;
       sd_exists := sd_exists w; events := events w |}) ;;;
  emit (EepromWrite address (CInt.to_u8 value)).

(** [EEPROM.read(address)], promoted to [int]. *)
Definition EEPROM_read (address : Z) : M World Z :=
  w <- get ;; ret (CInt.u8 (eeprom w address)).

(** [if (SD.exists(name)) { playSdWav1.play(name); delay(10);
    while (playSdWav1.isPlaying()) delay(..); }]: the file is played to its
    end.  Returns whether the file exists. *)
Definition play_if_exists (name : list byte) : M World bool :=
  w <- get ;;
  if sd_exists w name then emit (Play name) ;;; ret true else ret false.

Definition bs (s : String.string) : list byte := String.list_byte_of_string s.
Arguments bs s%_string_scope.

(** ** Volume control *)

Definition initial_currentVolume : F32.float := F32.of_double (F64.literal 5 10).
Definition volumeStep : F32.float := F32.of_double (F64.literal 1 10).
Definition minVolume : F32.float := F32.of_double (F64.literal 1 10).
Definition maxVolume : F32.float := F32.of_double (F64.literal 1 1).
Definition EEPROM_VOLUME_ADDRESS : Z := 0.

Definition saveVolumeToEEPROM : M World unit :=
  w <- get ;;
  match F32.to_int (F32.mul (currentVolume w) (F32.of_int 100)) with
  | Some volumeInt => EEPROM_write EEPROM_VOLUME_ADDRESS volumeInt
  | None => undefined
  end.

Definition loadVolumeFromEEPROM : M World unit :=
  volumeInt <- EEPROM_read EEPROM_VOLUME_ADDRESS ;;
  if volumeInt <=? 100 then
    set_currentVolume
      (F32.of_double (F64.div (F64.of_int volumeInt) (F64.literal 100 1)))
  else
    set_currentVolume (F32.of_double (F64.literal 5 10)) ;;;
    saveVolumeToEEPROM.

Definition set_gains : M World unit :=
  w <- get ;;
  emit (MixerGain 1 0 (currentVolume w)) ;;;
  emit (MixerGain 2 0 (currentVolume w)).

Definition volumeUp : M World unit :=
  w <- get ;;
  if F32.leb maxVolume (currentVolume w) then
    play_if_exists (bs "VOLUMEMX.WAV") ;;; ret tt
  else
    let v := F32.add (currentVolume w) volumeStep in
    set_currentVolume (if F32.ltb maxVolume v then maxVolume else v) ;;;
    set_gains ;;;
    saveVolumeToEEPROM ;;;
    play_if_exists (bs "VOLUMEUP.WAV") ;;; ret tt.

Definition volumeDown : M World unit :=
  w <- get ;;
  if F32.leb (currentVolume w) minVolume then
    play_if_exists (bs "VOLUMEMN.WAV") ;;; ret tt
  else
    let v := F32.sub (currentVolume w) volumeStep in
    set_currentVolume (if F32.ltb v minVolume then minVolume else v) ;;;
    set_gains ;;;
    saveVolumeToEEPROM ;;;
    play_if_exists (bs "VOLUMEDN.WAV") ;;; ret tt.

(** ** C strings

    A C string lives in an array and ends at its first NUL; the library
    routines read the array cell by cell and have undefined behaviour when
    they run off its end. *)

Definition NUL : byte := x00.

Definition is_NUL (c : byte) : bool := CInt.u8 c =? 0.

(** [toupper] of the C locale. *)
Definition toupper (c : Z) : Z :=
  if (97 <=? c) && (c <=? 122) then c - 32 else c.

Definition toupper_char (c : byte) : byte := CInt.to_u8 (toupper (CInt.u8 c)).

(** A string literal: its characters and the terminator. *)
Definition literal (s : String.string) : list byte := bs s ++ [NUL].
Arguments literal s%_string_scope.

Fixpoint strlen (a : list byte) : option Z :=
  match a with
  | [] => None
  | c :: t => if is_NUL c then Some 0
              else match strlen t with
                   | Some n => Some (n + 1)
                   | None => None
                   end
  end.

Fixpoint strcmp (a b : list byte) : option Z :=
  match a, b with
  | ca :: ta, cb :: tb =>
      if CInt.u8 ca =? CInt.u8 cb
      then if is_NUL ca then Some 0 else strcmp ta tb
      else Some (CInt.u8 ca - CInt.u8 cb)
  | _, _ => None
  end.

(** [for (int i = 0; a[i]; i++) a[i] = toupper(a[i]);] *)
Fixpoint upper_in_place (a : list byte) : option (list byte) :=
  match a with
  | [] => None
  | c :: t => if is_NUL c then Some a
              else match upper_in_place t with
                   | Some t' => Some (toupper_char c :: t')
                   | None => None
                   end
  end.

(** The characters of the C string an array holds. *)
Fixpoint c_string (a : list byte) : list byte :=
  match a with
  | [] => []
  | c :: t => if is_NUL c then [] else c :: c_string t
  end.

(** Stores the cells of [src] from index [k] on. *)
Fixpoint store_all (k : Z) (src : list byte) : M (list byte) unit :=
  match src with
  | [] => ret tt
  | c :: t => store k c ;;; store_all (k + 1) t
  end.

(** [strcat(dest, src)], [dest] being the array in the state. *)
Definition strcat (src : list byte) : M (list byte) unit :=
  dest <- get ;;
  match strlen dest, strlen src with
  | Some n, Some m => store_all n (firstn (Z.to_nat m + 1) src)
  | _, _ => undefined
  end.

(** Runs a computation on local variables whose initial contents are
    [init]; returns its result and their final contents. *)
Definition with_local {S A} (init : S) (m : M S A) : M World (A * S) :=
  fun w => match m init with
           | Some r => Some (r, w)
           | None => None
           end.

(** ** Asset lookup and playback *)

(** The name [searchAndPlayWAV] builds in its [char filename[32]], whose
    initial contents [filename0] are whatever the stack holds. *)
Definition wav_filename (textBuffer : list byte) : M (list byte) unit :=
  match strlen textBuffer with
  | Some len =>
      for_int (R := unit) 0 (Z.min len 27)   (* i < len && i < 27 *)
        (fun i => c <- load textBuffer i ;;
                  store i (toupper_char c) ;;; ret None) ;;;
      store len NUL ;;;
      strcat (literal ".WAV")
  | None => undefined
  end.

Definition searchAndPlayWAV (filename0 textBuffer : list byte) : M World bool :=
  r <- with_local filename0 (wav_filename textBuffer) ;;
  play_if_exists (c_string (snd r)).

Definition playNoMatch : M World unit :=
  play_if_exists (bs "NOMATCH.WAV") ;;; ret tt.

(** ** The poll cycle *)

(** What one cycle meets outside the device: the tag in the field, the
    answers of its pages, and the initial contents of the cycle's local
    arrays. *)
Record Env : Type := {
  tag : option Z;                          (* readPassiveTargetID: uidLength *)
  page : Z -> option (byte * byte * byte * byte);   (* ntag2xx_ReadPage *)
  allData0 : list byte;                    (* uint8_t allData[24] *)
  textBuffer0 : list byte;                 (* char textBuffer[128] *)
  filename0 : list byte                    (* char filename[32] *)
}.

(** The page loop, on the state [(allData, dataIndex)]; [Some tt] is the
    [break] after a failed read. *)
Definition read_page (e : Env) (i : Z) : M (list byte * Z) (option unit) :=
  match page e i with
  | Some (b0, b1, b2, b3) =>
      fun st =>
        let '(allData, dataIndex) := st in
        if CInt.add dataIndex 4 <=? 24 then
          match store_all dataIndex [b0; b1; b2; b3] allData with
          | Some (_, allData') => Some (None, (allData', CInt.add dataIndex 4))
          | None => None
          end
        else Some (None, st)
  | None => ret (Some tt)
  end.

(** The action [loop()] takes on a decoded text (lines 325-341): the text
    is uppercased in place and compared with the two volume commands; any
    other text is looked up as an asset. *)
Definition dispatch (e : Env) (textBuffer : list byte) : M World unit :=
  match upper_in_place textBuffer with
  | Some textBuffer =>
      match strcmp textBuffer (literal "VOLUMEUP") with
      | Some 0 => volumeUp
      | Some _ =>
          match strcmp textBuffer (literal "VOLUMEDN") with
          | Some 0 => volumeDown
          | Some _ =>
              found <- searchAndPlayWAV (filename0 e) textBuffer ;;
              if found then ret tt else playNoMatch
          | None => undefined
          end
      | None => undefined
      end
  | None => undefined
  end.

(** One run of [loop()] (lines 269-355).  The closing [delay(100)] has no
    effect on the state and is left out. *)
Definition loop (e : Env) : M World unit :=
  match tag e with
  | Some uidLength =>
      if uidLength =? 7 then
        pages <- with_local (allData0 e, 0) (for_int 4 10 (read_page e)) ;;
        let '(brk, (allData, dataIndex)) := pages in
        let readSuccess := match brk with Some _ => false | None => true end in
        if readSuccess && (0 <? dataIndex) then
          r <- with_local (textBuffer0 e)
                 (parseNDEFTextRecord allData dataIndex 128) ;;
          if fst r then dispatch e (snd r) else ret tt
        else ret tt
      else
        emit (SerialPrintln
          (bs "This doesn't seem to be an NTAG203 tag (UUID length != 7 bytes)!"))
  | None => ret tt
  end.

(** ** Vocabulary of the decoder's contract

    The quantities of the text record at offset [i], in unbounded
    arithmetic: payload length at [i+2], status byte at [i+4], language code
    length in its low six bits. *)

Section Record_at.

Variable data : list byte.
Variable dataLength maxTextLength : Z.

Definition byte_at (k : Z) : byte := nth (Z.to_nat k) data x00.

Definition has_header (i : Z) : bool :=
  (CInt.u8 (byte_at i) =? 0xD1) && (CInt.u8 (byte_at (i + 1)) =? 0x01)
  && (CInt.u8 (byte_at (i + 3)) =? 0x54).

Definition lang_length (i : Z) : Z := Z.land (CInt.u8 (byte_at (i + 4))) 0x3F.
Definition text_start (i : Z) : Z := i + 5 + lang_length i.
Definition text_length (i : Z) : Z := CInt.u8 (byte_at (i + 2)) - 1 - lang_length i.

Definition lengths_ok (i : Z) : bool :=
  (0 <? text_length i) && (text_length i <? maxTextLength)
  && (text_start i + text_length i <=? dataLength).

(** The candidate at [i] has the header and passes the length checks. *)
Definition accepts (i : Z) : bool := has_header i && lengths_ok i.

Definition text_at (i : Z) : list byte :=
  firstn (Z.to_nat (text_length i)) (skipn (Z.to_nat (text_start i)) data).

(** First accepted offset among [i, i+1, ..., i+n-1]. *)
Fixpoint first_accepted (n : nat) (i : Z) : option Z :=
  match n with
  | O => None
  | S n' => if accepts i then Some i else first_accepted n' (i + 1)
  end.

End Record_at.

(** The output array after [text] and its terminator were written. *)
Definition written (out text : list byte) : list byte :=
  text ++ NUL :: skipn (length text + 1) out.

(** Largest buffer length for which no [int] computed by the decoder
    overflows: the largest is [textStart + textLength], at most
    [dataLength + 315]. *)
Definition MAX_DATA_LENGTH : Z := CInt.INT_MAX - 315.

(** ** Volume states the device can reach *)

(** The volume [loadVolumeFromEEPROM] sets for a stored byte. *)
Definition volume_loaded (stored : byte) : F32.float :=
  if CInt.u8 stored <=? 100
  then F32.of_double (F64.div (F64.of_int (CInt.u8 stored)) (F64.literal 100 1))
  else F32.of_double (F64.literal 5 10).

(** The volume [volumeUp] and [volumeDown] leave. *)
Definition volume_after_up (v : F32.float) : F32.float :=
  if F32.leb maxVolume v then v
  else let v' := F32.add v volumeStep in
       if F32.ltb maxVolume v' then maxVolume else v'.

Definition volume_after_down (v : F32.float) : F32.float :=
  if F32.leb v minVolume then v
  else let v' := F32.sub v volumeStep in
       if F32.ltb v' minVolume then minVolume else v'.

(** Equality of representations (not IEEE equality). *)
Definition float_eqb (x y : spec_float) : bool :=
  match x, y with
  | S754_zero a, S754_zero b => Bool.eqb a b
  | S754_infinity a, S754_infinity b => Bool.eqb a b
  | S754_nan, S754_nan => true
  | S754_finite a m e, S754_finite b m' e' =>
      Bool.eqb a b && Pos.eqb m m' && Z.eqb e e'
  | _, _ => false
  end.

Definition mem (v : F32.float) (l : list F32.float) : bool :=
  existsb (float_eqb v) l.

Definition insert_new (v : F32.float) (l : list F32.float) : list F32.float :=
  if mem v l then l else l ++ [v].

Definition close_once (l : list F32.float) : list F32.float :=
  fold_left (fun acc v => insert_new (volume_after_down v)
                            (insert_new (volume_after_up v) acc)) l l.

Fixpoint close (n : nat) (l : list F32.float) : list F32.float :=
  match n with
  | O => l
  | S n' => close n' (close_once l)
  end.

Definition all_bytes : list byte :=
  map (fun n => CInt.to_u8 (Z.of_nat n)) (seq 0 256).

Definition boot_volumes : list F32.float :=
  fold_left (fun acc b => insert_new (volume_loaded b) acc) all_bytes [].

(** Every volume reachable from some stored byte by [volumeUp] and
    [volumeDown]: the least set with the loaded volumes that both
    operations map into itself (273 values). *)
Definition volumes : list F32.float :=
  Eval vm_compute in close 8 boot_volumes.

(** The device at power-up, before [setup] runs. *)
Definition boot_world (stored : byte) (files : list byte -> bool) : World :=
  {| currentVolume := initial_currentVolume;
     eeprom := fun _ => stored;
     sd_exists := files;
     events := [] |}.

(** States of the device: after [loadVolumeFromEEPROM] at start-up, with the
    byte [stored] in the EEPROM, and then after any number of volume
    commands and poll cycles. *)
Inductive reachable_from (stored : byte) : World -> Prop :=
| reach_boot (w w' : World) :
    eeprom w EEPROM_VOLUME_ADDRESS = stored ->
    loadVolumeFromEEPROM w = Some (tt, w') ->
    reachable_from stored w'
| reach_up (w w' : World) :
    reachable_from stored w -> volumeUp w = Some (tt, w') ->
    reachable_from stored w'
| reach_down (w w' : World) :
    reachable_from stored w -> volumeDown w = Some (tt, w') ->
    reachable_from stored w'
| reach_loop (e : Env) (w w' : World) :
    reachable_from stored w -> loop e w = Some (tt, w') ->
    reachable_from stored w'.

Definition reachable (w : World) : Prop := exists stored, reachable_from stored w.

(** The EEPROM writes among some events. *)
Fixpoint eeprom_writes (evs : list Event) : list (Z * byte) :=
  match evs with
  | [] => []
  | EepromWrite a v :: t => (a, v) :: eeprom_writes t
  | _ :: t => eeprom_writes t
  end.

(** The files played among some events. *)
Fixpoint plays (evs : list Event) : list (list byte) :=
  match evs with
  | [] => []
  | Play f :: t => f :: plays t
  | _ :: t => plays t
  end.

(** [w] with the volume [v], the EEPROM [cells] and the further events [evs]. *)
Definition after (w : World) (v : F32.float) (cells : Z -> byte)
  (evs : list Event) : World :=
  {| currentVolume := v; eeprom := cells; sd_exists := sd_exists w;
     events := events w ++ evs |}.

(** The cell contents after [EEPROM.write(address, value)]. *)
Definition cells_written (cells : Z -> byte) (address value : Z) : Z -> byte :=
  fun a => if a =? address then CInt.to_u8 value else cells a.

(** [round(value * 100)] of the specification: the integer nearest to one
    hundred times the exact value of [v]. *)
Definition round_x100 (v : F32.float) : option Z :=
  match v with
  | S754_zero _ => Some 0
  | S754_finite s m e =>
      let n := 100 * Zpos m in
      let r := if 0 <=? e then n * 2 ^ e
               else (2 * n + 2 ^ (- e)) / 2 ^ (1 - e) in
      Some (if s then - r else r)
  | _ => None
  end.

(** The binary32 nearest to the quotient of two integers. *)
Definition nearest_quotient (n d : Z) : F32.float :=
  SFdiv F32.prec F32.emax (F32.of_int n) (F32.of_int d).

(** The device after [loadVolumeFromEEPROM] at power-up. *)
Definition booted (stored : byte) (files : list byte -> bool) : World :=
  match loadVolumeFromEEPROM (boot_world stored files) with
  | Some (_, w) => w
  | None => boot_world stored files
  end.

Definition no_files : list byte -> bool := fun _ => false.

(** What is checked of each stored byte and of each reachable volume. *)
Definition boot_check (stored : byte) : bool :=
  mem (volume_loaded stored) volumes
  && implb (10 <=? CInt.u8 stored) (F32.leb minVolume (volume_loaded stored))
  && implb (CInt.u8 stored <=? 100)
       (float_eqb (volume_loaded stored) (nearest_quotient (CInt.u8 stored) 100)).

Definition persisted (v : F32.float) : option Z :=
  F32.to_int (F32.mul v (F32.of_int 100)).

Definition is_some {A} (o : option A) : bool :=
  match o with Some _ => true | None => false end.

Definition step_check (v : F32.float) : bool :=
  mem (volume_after_up v) volumes && mem (volume_after_down v) volumes
  && F32.leb (F32.of_int 0) v && F32.leb v maxVolume
  && implb (F32.leb minVolume v)
       (F32.leb minVolume (volume_after_up v)
        && F32.leb minVolume (volume_after_down v))
  && (F32.leb maxVolume v
      || (F32.ltb v (volume_after_up v)
          && is_some (persisted (volume_after_up v))))
  && (F32.leb v minVolume
      || (F32.ltb (volume_after_down v) v
          && is_some (persisted (volume_after_down v)))).

(** A cycle that only adds events that are neither EEPROM writes nor a
    change of the volume. *)
Definition quiet_step (w w' : World) : Prop :=
  exists evs, w' = after w (currentVolume w) (eeprom w) evs
              /\ eeprom_writes evs = [].

(** The local arrays of a cycle have their declared sizes. *)
Definition well_formed_env (e : Env) : Prop :=
  length (allData0 e) = 24%nat /\ length (textBuffer0 e) = 128%nat
  /\ length (filename0 e) = 32%nat.

(** ** The classifier of the specification *)

Inductive Command : Type :=
| VolumeUp
| VolumeDown
| PlayAsset (name : list byte).

Fixpoint bytes_eqb (a b : list byte) : bool :=
  match a, b with
  | [], [] => true
  | x :: a', y :: b' => Byte.eqb x y && bytes_eqb a' b'
  | _, _ => false
  end.

Definition uppercase (t : list byte) : list byte := map toupper_char t.

(** Exact match on the uppercased text, in priority order; anything else
    names the asset [text + ".WAV"]. *)
Definition classify (t : list byte) : Command :=
  if bytes_eqb (uppercase t) (bs "VOLUMEUP") then VolumeUp
  else if bytes_eqb (uppercase t) (bs "VOLUMEDN") then VolumeDown
  else PlayAsset (uppercase t ++ bs ".WAV").

(** What the cycle does for a command: the volume commands, or the asset
    played when the store has it and the no-match sound otherwise. *)
Definition perform (c : Command) : M World unit :=
  match c with
  | VolumeUp => volumeUp
  | VolumeDown => volumeDown
  | PlayAsset name =>
      found <- play_if_exists name ;;
      if found then ret tt else playNoMatch
  end.

(** No character of [t] is the terminator. *)
Definition NUL_free (t : list byte) : Prop :=
  Forall (fun c => is_NUL c = false) t.

(** A cycle on a 7-byte tag whose fourth page read, page 7, fails. *)
Definition env_fourth_page_fails : Env :=
  {| tag := Some 7;
     page := fun i => if i =? 7 then None else Some (xd1, x01, x04, x54);
     allData0 := repeat xff 24;
     textBuffer0 := repeat xff 128;
     filename0 := repeat xff 32 |}.

(** The 24 bytes of pages 4 to 9 of a tag that holds the text record
    "museum" in language "en". *)
Definition museum_pages : list byte :=
  [x03; x0d; xd1; x01; x09; x54; x02] ++ bs "en" ++ bs "museum"
  ++ [xfe; x00; x00; x00; x00; x00; x00; x00; x00].

(** A cycle on a 7-byte tag whose pages 4 to 9 hold [bytes]. *)
Definition env_of_pages (bytes : list byte) : Env :=
  {| tag := Some 7;
     page := fun i =>
       match skipn (Z.to_nat ((i - 4) * 4)) bytes with
       | a :: b :: c :: d :: _ => Some (a, b, c, d)
       | _ => None
       end;
     allData0 := repeat xff 24;
     textBuffer0 := repeat xff 128;
     filename0 := repeat xff 32 |}.

(** The pages of a tag that holds the text record "VolumeDn". *)
Definition volume_down_pages : list byte :=
  [x03; x0f; xd1; x01; x0b; x54; x02] ++ bs "en" ++ bs "VolumeDn"
  ++ [xfe; x00; x00; x00; x00; x00; x00].

(** A text with a NUL inside: "VOLUMEUP", a NUL, "A". *)
Definition text_with_NUL : list byte := bs "VOLUMEUP" ++ [NUL; x41].

(** The pages of a tag whose text record holds [text_with_NUL]. *)
Definition volume_up_NUL_pages : list byte :=
  [x03; x11; xd1; x01; x0d; x54; x02] ++ bs "en" ++ text_with_NUL
  ++ [xfe; x00; x00; x00; x00].

(** ** Sample buffers *)

(** A header whose payload length is zero, then a well-formed record "A". *)
Definition buffer_bad_then_good : list byte :=
  [xd1; x01; x00; x54; x00; xd1; x01; x02; x54; x00; x41; x00].

(** A well-formed record "A" with no language code, six bytes from the end. *)
Definition buffer_record_at_end : list byte :=
  [x00; x00; xd1; x01; x02; x54; x00; x41].

(** The same record seven bytes from the end. *)
Definition buffer_record_before_end : list byte :=
  [x00; xd1; x01; x02; x54; x00; x41; x42].

(** A record "A" with no language code and no padding at all. *)
Definition buffer_bare_record : list byte :=
  [] ++ [xd1; x01; x02; x54; x00] ++ [] ++ [x41] ++ [].

(** A record "Hi" in language "en" between paddings. *)
Definition buffer_padded_record : list byte :=
  [x03; x0a] ++ [xd1; x01; x05; x54; x02] ++ bs "en" ++ bs "Hi" ++ [xfe].

(** ** Further vocabulary *)

(** The device after one run of [loop()]. *)
Definition run_cycle (e : Env) (w : World) : World :=
  match loop e w with
  | Some (_, w') => w'
  | None => w
  end.

(** A command issued [n] times in a row. *)
Fixpoint repeat_cmd (n : nat) (m : M World unit) : M World unit :=
  match n with
  | O => ret tt
  | S n' => m ;;; repeat_cmd n' m
  end.

Fixpoint iterate {A} (n : nat) (f : A -> A) (x : A) : A :=
  match n with
  | O => x
  | S n' => iterate n' f (f x)
  end.

(** The mixer gains set among some events. *)
Fixpoint gains (evs : list Event) : list (nat * Z * F32.float) :=
  match evs with
  | [] => []
  | MixerGain m c g :: t => (m, c, g) :: gains t
  | _ :: t => gains t
  end.

(** The gain each mixer was last set to. *)
Definition last_gains (evs : list Event) : option F32.float * option F32.float :=
  fold_left (fun acc g =>
               match g with
               | (1%nat, 0, level) => (Some level, snd acc)
               | (2%nat, 0, level) => (fst acc, Some level)
               | _ => acc
               end) (gains evs) (None, None).

(** The stored byte [b] is a valid volume and is [round(100 v)] or one
    below it. *)
Definition stored_agrees (b : byte) (v : F32.float) : bool :=
  (CInt.u8 b <=? 100)
  && match round_x100 v with
     | Some r => (CInt.u8 b =? r) || (CInt.u8 b =? r - 1)
     | None => false
     end.

Definition stored_check_boot (stored : byte) : bool :=
  stored_agrees (if CInt.u8 stored <=? 100 then stored else x32)
                (volume_loaded stored)
  && float_eqb (volume_loaded (if CInt.u8 stored <=? 100 then stored else x32))
               (volume_loaded stored).

Definition stored_check_step (v : F32.float) : bool :=
  (F32.leb maxVolume v
   || match persisted (volume_after_up v) with
      | Some z => stored_agrees (CInt.to_u8 z) (volume_after_up v)
      | None => false
      end)
  && (F32.leb v minVolume
      || match persisted (volume_after_down v) with
         | Some z => stored_agrees (CInt.to_u8 z) (volume_after_down v)
         | None => false
         end).

(** What one cycle does to the device: it adds events, among them at most
    one playback, and either leaves the volume, the EEPROM and the gains
    alone, or sets a new volume, both gains to it, and stores it. *)
Definition cycle_step (w w' : World) : Prop :=
  exists v cells evs,
    w' = after w v cells evs
    /\ (length (plays evs) <= 1)%nat
    /\ ((v = currentVolume w /\ cells = eeprom w
         /\ eeprom_writes evs = [] /\ gains evs = [])
        \/ (exists z, persisted v = Some z
                      /\ cells = cells_written (eeprom w) 0 z
                      /\ eeprom_writes evs = [(0, CInt.to_u8 z)]
                      /\ gains evs = [(1%nat, 0, v); (2%nat, 0, v)])).

(** A buffer of 24 bytes with no header byte. *)
Definition buffer_blank : list byte := repeat xff 24.

(** ** Start-up

    [setup()] (lines 216-267).  Besides the [World] it acts on the serial
    console, modelled by the characters sent to it, and on peripherals the
    [World] does not hold, modelled by the list of the calls made.  The
    wait [while (!Serial) delay(10)] of line 219 ends when the host opens
    the port, which need not happen: [setup()] returns [false] where control
    never leaves it, in that wait on a port that stays closed (the [Boot] is
    then the one the wait began with) and in the two [while (1)].  The wait
    for the start-up sound belongs to its [Play] event. *)

Inductive Peripheral : Type :=
| SerialBegin (baud : Z)
| Delay (ms : Z)
| AudioMemory (blocks : Z)
| CodecEnable
| CodecVolume (level : F32.float)
| SpiSetMOSI (pin : Z)
| SpiSetSCK (pin : Z)
| SdBegin (cs : Z)
| NfcBegin
| NfcGetFirmwareVersion.

Record Boot : Type := {
  world : World;
  console : list byte;                 (* characters written to Serial *)
  peripherals : list Peripheral        (* calls made, oldest first *)
}.

(** What [setup()] meets: how many times the test [!Serial] holds before
    the port is open ([None] when it never opens), whether [SD.begin]
    succeeds, and the firmware version the reader reports (0 when no reader
    answers). *)
Record SetupEnv : Type := {
  serial_ready : option nat;
  sd_begin : bool;
  versiondata : Z
}.

Definition power_on (w : World) : Boot :=
  {| world := w; console := []; peripherals := [] |}.

Definition in_world {A} (m : M World A) : M Boot A :=
  fun b => match m (world b) with
           | Some (a, w) =>
               Some (a, {| world := w; console := console b;
                           peripherals := peripherals b |})
           | None => None
           end.

Definition call (p : Peripheral) : M Boot unit :=
  modify (fun b => {| world := world b; console := console b;
                      peripherals := peripherals b ++ [p] |}).

Definition Serial_print (text : list byte) : M Boot unit :=
  modify (fun b => {| world := world b; console := console b ++ text;
                      peripherals := peripherals b |}).

Definition Serial_println (text : list byte) : M Boot unit :=
  Serial_print (text ++ [x0d; x0a]).

(** The digits [Print::printNumber] writes for [n] in base [base], most
    significant first, with capital letters above 9. *)
Definition digit_char (d : Z) : byte :=
  CInt.to_u8 (if d <? 10 then d + 48 else d + 55).

Fixpoint number_digits (fuel : nat) (n base : Z) (acc : list byte) : list byte :=
  match fuel with
  | O => acc
  | S fuel' =>
      let acc' := digit_char (n mod base) :: acc in
      if n / base =? 0 then acc' else number_digits fuel' (n / base) base acc'
  end.

Definition print_number (n base : Z) : list byte := number_digits 32 n base [].

Definition SDCARD_CS_PIN : Z := 10.
Definition SDCARD_MOSI_PIN : Z := 7.
Definition SDCARD_SCK_PIN : Z := 14.

(** [while (!Serial) delay(10);] when the test holds [polls] times. *)
Fixpoint wait_for_Serial (polls : nat) : M Boot unit :=
  match polls with
  | O => ret tt
  | S polls' => call (Delay 10) ;;; wait_for_Serial polls'
  end.

Definition setup (env : SetupEnv) : M Boot bool :=
  call (SerialBegin 115200) ;;;
  match serial_ready env with
  | None => ret false
  | Some polls =>
    wait_for_Serial polls ;;;
    Serial_println (bs "WAM NFC Audio Box") ;;;
    in_world loadVolumeFromEEPROM ;;;
    call (AudioMemory 8) ;;;
    call CodecEnable ;;;
    call (CodecVolume (F32.of_double (F64.literal 8 10))) ;;;
    in_world set_gains ;;;
    call (SpiSetMOSI SDCARD_MOSI_PIN) ;;;
    call (SpiSetSCK SDCARD_SCK_PIN) ;;;
    call (SdBegin SDCARD_CS_PIN) ;;;
    if negb (sd_begin env) then
      Serial_println (bs "Unable to access the SD card") ;;;
      ret false
    else
      Serial_println (bs "SD card initialized") ;;;
      call NfcBegin ;;;
      call NfcGetFirmwareVersion ;;;
      let version := versiondata env mod 4294967296 in
      if version =? 0 then
        Serial_print (bs "Didn't find PN53x board") ;;;
        ret false
      else
        Serial_print (bs "Found chip PN5") ;;;
        Serial_println (print_number (Z.land (Z.shiftr version 24) 0xFF) 16) ;;;
        Serial_print (bs "Firmware ver. ") ;;;
        Serial_print (print_number (Z.land (Z.shiftr version 16) 0xFF) 10) ;;;
        Serial_print (bs ".") ;;;
        Serial_println (print_number (Z.land (Z.shiftr version 8) 0xFF) 10) ;;;
        in_world (play_if_exists (bs "STARTUP.WAV")) ;;;
        Serial_println (bs "Setup complete") ;;;
        ret true
  end.

(** The states of the running device: [setup()] came to its end, then any
    number of cycles. *)
Inductive running : World -> Prop :=
| run_setup (env : SetupEnv) (w : World) (b : Boot) :
    setup env (power_on w) = Some (true, b) -> running (world b)
| run_loop (e : Env) (w w' : World) :
    running w -> loop e w = Some (tt, w') -> running w'.

(** A host that opens the port at the third test, and a reader PN532 with
    firmware 1.6. *)
Definition env_pn532 : SetupEnv :=
  {| serial_ready := Some 2%nat; sd_begin := true; versiondata := 0x32010607 |}.

(** The device after [setup()]. *)
Definition boot_of (env : SetupEnv) (w : World) : Boot :=
  match setup env (power_on w) with
  | Some (_, b) => b
  | None => power_on w
  end.

Definition started (env : SetupEnv) (w : World) : World := world (boot_of env w).

(** The pages 4 to 9 of the tag answer with the 24 bytes [data]. *)
Definition pages_hold (e : Env) (data : list byte) : Prop :=
  length data = 24%nat
  /\ forall k : nat, (k < 6)%nat ->
       page e (4 + Z.of_nat k)
       = Some (nth (4 * k) data x00, nth (4 * k + 1) data x00,
               nth (4 * k + 2) data x00, nth (4 * k + 3) data x00).

(** * Verification *)

(** ** Integers, bytes and arrays *)

Lemma wrap32_small (z : Z) :
  CInt.INT_MIN <= z <= CInt.INT_MAX -> CInt.wrap32 z = z.
Proof.
  unfold CInt.wrap32, CInt.INT_MIN, CInt.INT_MAX. intros H.
  rewrite Z.mod_small; lia.
Qed.

Lemma add_small (a b : Z) :
  CInt.INT_MIN <= a + b <= CInt.INT_MAX -> CInt.add a b = a + b.
Proof. apply wrap32_small. Qed.

Lemma sub_small (a b : Z) :
  CInt.INT_MIN <= a - b <= CInt.INT_MAX -> CInt.sub a b = a - b.
Proof. apply wrap32_small. Qed.

Lemma u8_range (b : byte) : 0 <= CInt.u8 b <= 255.
Proof.
  unfold CInt.u8. pose proof (Byte.to_N_bounded b). lia.
Qed.

Lemma low6_range (x : Z) : 0 <= x -> 0 <= Z.land x 0x3F <= 63.
Proof.
  intros Hx. change (Z.land x 0x3F) with (Z.land x (Z.ones 6)).
  rewrite Z.land_ones by lia.
  change (2 ^ 6) with 64. pose proof (Z.mod_pos_bound x 64). lia.
Qed.

Lemma in_array_true {A} (k : Z) (l : list A) :
  0 <= k < Z.of_nat (length l) -> in_array k l = true.
Proof.
  intros H. unfold in_array.
  apply andb_true_intro; split; [apply Z.leb_le | apply Z.ltb_lt]; lia.
Qed.

Lemma load_ok {S} (a : list byte) (k : Z) (s : S) :
  0 <= k < Z.of_nat (length a) ->
  load a k s = Some (nth (Z.to_nat k) a x00, s).
Proof.
  intros H. unfold load. rewrite in_array_true by assumption. reflexivity.
Qed.

Lemma update_length {A} (n : nat) (v : A) (l : list A) :
  length (update n v l) = length l.
Proof.
  revert n; induction l as [|h t IH]; intros [|n]; simpl; auto.
Qed.

Lemma update_middle {A} (l1 l2 : list A) (x v : A) :
  update (length l1) v (l1 ++ x :: l2) = l1 ++ v :: l2.
Proof.
  induction l1 as [|h t IH]; simpl; [reflexivity | now rewrite IH].
Qed.

Lemma store_middle (l1 l2 : list byte) (x v : byte) (k : Z) :
  k = Z.of_nat (length l1) ->
  store k v (l1 ++ x :: l2) = Some (tt, l1 ++ v :: l2).
Proof.
  intros ->. unfold store.
  rewrite in_array_true by (rewrite length_app; simpl; lia).
  rewrite Nat2Z.id, update_middle. reflexivity.
Qed.

Lemma skipn_cons_nth {A} (n : nat) (l : list A) (d : A) :
  (n < length l)%nat -> skipn n l = nth n l d :: skipn (S n) l.
Proof.
  revert l; induction n as [|n IH]; intros [|h t] H; simpl in *; try lia.
  - reflexivity.
  - apply IH. lia.
Qed.

(** ** The decoder computes the first accepted candidate *)

Section Decoder_facts.

Variable data : list byte.
Variable maxTextLength : Z.

Local Abbreviation dataLength := (Z.of_nat (length data)).

Hypothesis Hlen : dataLength <= MAX_DATA_LENGTH.

Lemma memcpy_data_ok (n : nat) :
  forall (src : nat) (pre mid post : list byte),
    length mid = n -> (src + n <= length data)%nat ->
    memcpy_data data (Z.of_nat (length pre)) (Z.of_nat src) n
                (pre ++ mid ++ post)
    = Some (tt, pre ++ firstn n (skipn src data) ++ post).
Proof.
  induction n as [|n IH]; intros src pre mid post Hmid Hsrc.
  - destruct mid; [reflexivity | discriminate].
  - destruct mid as [|x mid]; [discriminate|]. injection Hmid as Hmid.
    cbn [memcpy_data]. unfold bind.
    rewrite load_ok by lia. rewrite Nat2Z.id.
    cbn [app]. rewrite store_middle by reflexivity.
    replace (Z.of_nat (length pre) + 1) with (Z.of_nat (length (pre ++ [nth src data x00])))
      by (rewrite length_app; simpl; lia).
    replace (Z.of_nat src + 1) with (Z.of_nat (S src)) by lia.
    replace (pre ++ nth src data x00 :: mid ++ post)
      with ((pre ++ [nth src data x00]) ++ mid ++ post)
      by (rewrite <- app_assoc; reflexivity).
    rewrite (IH (S src)) by (assumption || lia).
    rewrite (skipn_cons_nth src data x00) by lia.
    cbn [firstn]. rewrite <- app_assoc. reflexivity.
Qed.

Lemma header_at_ok (i : Z) (out : list byte) :
  0 <= i < dataLength - 6 ->
  header_at data i out = Some (has_header data i, out).
Proof.
  intros Hi. unfold header_at, has_header, byte_at, bind.
  unfold MAX_DATA_LENGTH, CInt.INT_MAX in Hlen.
  rewrite !add_small by (unfold CInt.INT_MIN, CInt.INT_MAX; lia).
  rewrite load_ok by lia.
  destruct (CInt.u8 (nth (Z.to_nat i) data x00) =? 209); [|reflexivity].
  rewrite load_ok by lia.
  destruct (CInt.u8 (nth (Z.to_nat (i + 1)) data x00) =? 1); [|reflexivity].
  rewrite load_ok by lia.
  reflexivity.
Qed.

Lemma text_at_length (i : Z) :
  0 <= i -> 0 <= text_length data i ->
  text_start data i + text_length data i <= dataLength ->
  length (text_at data i) = Z.to_nat (text_length data i).
Proof.
  intros Hi Hn Hfit. unfold text_at.
  rewrite length_firstn, length_skipn.
  pose proof (low6_range _ (proj1 (u8_range (byte_at data (i + 4))))) as Hl.
  fold (lang_length data i) in Hl.
  assert (text_start data i = i + 5 + lang_length data i) by reflexivity.
  lia.
Qed.

Lemma parse_body_ok (i : Z) (out : list byte) :
  0 <= i < dataLength - 6 ->
  maxTextLength <= Z.of_nat (length out) ->
  parse_body data dataLength maxTextLength i out
  = Some (if accepts data dataLength maxTextLength i
          then (Some true, written out (text_at data i))
          else (None, out)).
Proof.
  intros Hi Hcap. unfold parse_body, accepts, bind.
  rewrite header_at_ok by assumption.
  destruct (has_header data i); [|reflexivity]. cbn [andb].
  pose proof Hlen as Hlen'. unfold MAX_DATA_LENGTH, CInt.INT_MAX in Hlen'.
  rewrite !(add_small i) by (unfold CInt.INT_MIN, CInt.INT_MAX; lia).
  rewrite !load_ok by lia.
  fold (byte_at data (i + 2)). fold (byte_at data (i + 4)).
  fold (lang_length data i).
  pose proof (u8_range (byte_at data (i + 2))) as Hp.
  pose proof (low6_range _ (proj1 (u8_range (byte_at data (i + 4))))) as Hl.
  fold (lang_length data i) in Hl.
  rewrite (sub_small (CInt.u8 _) 1) by (unfold CInt.INT_MIN, CInt.INT_MAX; lia).
  rewrite (sub_small (_ - 1)) by (unfold CInt.INT_MIN, CInt.INT_MAX; lia).
  rewrite (add_small (i + 5)) by (unfold CInt.INT_MIN, CInt.INT_MAX; lia).
  fold (text_length data i). fold (text_start data i).
  assert (Hts : text_start data i = i + 5 + lang_length data i) by reflexivity.
  assert (Htl : text_length data i
                = CInt.u8 (byte_at data (i + 2)) - 1 - lang_length data i)
    by reflexivity.
  rewrite (add_small (text_start data i))
    by (unfold CInt.INT_MIN, CInt.INT_MAX; lia).
  fold (lengths_ok data dataLength maxTextLength i).
  destruct (lengths_ok data dataLength maxTextLength i) eqn:Hok; [|reflexivity].
  unfold lengths_ok in Hok.
  apply andb_prop in Hok as [Hok H3]. apply andb_prop in Hok as [H1 H2].
  apply Z.ltb_lt in H1, H2. apply Z.leb_le in H3.
  set (n := Z.to_nat (text_length data i)).
  assert (Hn : (n < length out)%nat) by (subst n; lia).
  rewrite <- (firstn_skipn n out) at 1.
  rewrite (skipn_cons_nth n out x00) at 1 by assumption.
  replace (text_start data i) with (Z.of_nat (Z.to_nat (text_start data i))) at 1 by lia.
  pose proof (memcpy_data_ok n (Z.to_nat (text_start data i)) []
                (firstn n out) (nth n out x00 :: skipn (S n) out)) as Hcpy.
  cbn [app length] in Hcpy. change (Z.of_nat 0) with 0 in Hcpy.
  rewrite Hcpy.
  2: { rewrite length_firstn. lia. }
  2: { subst n. lia. }
  assert (Hlt : length (text_at data i) = n)
    by (apply text_at_length; lia).
  change (firstn n (skipn (Z.to_nat (text_start data i)) data))
    with (text_at data i).
  rewrite store_middle by lia.
  unfold ret, written. rewrite Hlt.
  replace (n + 1)%nat with (S n) by lia. reflexivity.
Qed.

End Decoder_facts.

Section First_accepted.

Variable data : list byte.
Variable dataLength maxTextLength : Z.

Local Abbreviation acc := (accepts data dataLength maxTextLength).
Local Abbreviation first := (first_accepted data dataLength maxTextLength).

Lemma first_accepted_Some (n : nat) :
  forall i j, first n i = Some j ->
    i <= j < i + Z.of_nat n /\ acc j = true
    /\ forall k, i <= k < j -> acc k = false.
Proof.
  induction n as [|n IH]; intros i j H; cbn [first_accepted] in H.
  - discriminate.
  - destruct (acc i) eqn:Hi.
    + injection H as <-. split; [lia|]. split; [assumption|]. intros k Hk; lia.
    + apply IH in H as (Hr & Hj & Hmin). split; [lia|]. split; [assumption|].
      intros k Hk. destruct (Z.eq_dec k i) as [->|Hne]; [assumption|].
      apply Hmin; lia.
Qed.

Lemma first_accepted_least (n : nat) :
  forall i j, i <= j < i + Z.of_nat n -> acc j = true ->
    (forall k, i <= k < j -> acc k = false) ->
    first n i = Some j.
Proof.
  induction n as [|n IH]; intros i j Hr Hj Hmin; [lia|].
  cbn [first_accepted]. destruct (Z.eq_dec i j) as [->|Hne].
  - now rewrite Hj.
  - rewrite (Hmin i) by lia. apply IH; [lia | assumption |].
    intros k Hk; apply Hmin; lia.
Qed.

Lemma first_accepted_None (n : nat) :
  forall i, (forall k, i <= k < i + Z.of_nat n -> acc k = false) ->
    first n i = None.
Proof.
  induction n as [|n IH]; intros i H; [reflexivity|].
  cbn [first_accepted]. rewrite (H i) by lia. apply IH.
  intros k Hk; apply H; lia.
Qed.

End First_accepted.

Section Decoder_result.

Variable data : list byte.
Variable maxTextLength : Z.

Local Abbreviation dataLength := (Z.of_nat (length data)).

Hypothesis Hlen : dataLength <= MAX_DATA_LENGTH.

Lemma scan_ok (n : nat) :
  forall (i : Z) (out : list byte),
    0 <= i -> i + Z.of_nat n <= dataLength - 6 ->
    maxTextLength <= Z.of_nat (length out) ->
    for_iter n i (parse_body data dataLength maxTextLength) out
    = Some (match first_accepted data dataLength maxTextLength n i with
            | Some j => (Some true, written out (text_at data j))
            | None => (None, out)
            end).
Proof.
  induction n as [|n IH]; intros i out Hi Hn Hcap; [reflexivity|].
  cbn [for_iter first_accepted]. unfold bind.
  rewrite (parse_body_ok data maxTextLength Hlen) by lia.
  destruct (accepts data dataLength maxTextLength i).
  - reflexivity.
  - unfold MAX_DATA_LENGTH, CInt.INT_MAX in Hlen.
    rewrite add_small by (unfold CInt.INT_MIN, CInt.INT_MAX; lia).
    apply IH; lia.
Qed.

(** The decoder succeeds exactly on the first accepted offset below
    [dataLength - 6], and writes that candidate's text. *)
Lemma parse_ok (out : list byte) :
  maxTextLength <= Z.of_nat (length out) ->
  parseNDEFTextRecord data dataLength maxTextLength out
  = Some (match first_accepted data dataLength maxTextLength
                  (Z.to_nat (dataLength - 6)) 0 with
          | Some j => (true, written out (text_at data j))
          | None => (false, out)
          end).
Proof.
  intros Hcap. unfold parseNDEFTextRecord, for_int, bind.
  assert (0 <= dataLength) by lia.
  unfold MAX_DATA_LENGTH, CInt.INT_MAX in Hlen.
  rewrite sub_small by (unfold CInt.INT_MIN, CInt.INT_MAX; lia).
  rewrite Z.sub_0_r.
  destruct (Z.to_nat (dataLength - 6)) as [|n] eqn:En; [reflexivity|].
  rewrite scan_ok by (assumption || lia).
  destruct (first_accepted _ _ _ _ _); reflexivity.
Qed.

End Decoder_result.

Lemma written_length (out text : list byte) :
  (length text < length out)%nat -> length (written out text) = length out.
Proof.
  intros H. unfold written. rewrite length_app. cbn [length].
  rewrite length_skipn. lia.
Qed.

Lemma byte_at_app (pre rest : list byte) (k : Z) :
  0 <= k -> byte_at (pre ++ rest) (Z.of_nat (length pre) + k) = byte_at rest k.
Proof.
  intros Hk. unfold byte_at.
  replace (Z.to_nat (Z.of_nat (length pre) + k))
    with (length pre + Z.to_nat k)%nat by lia.
  apply app_nth2_plus.
Qed.

(** ** The decoder's contract *)

(** C1 (amended): when the first offset with the header pattern fails the
    length checks, the scan goes on: the decoder succeeds with the text of
    the first later offset below [dataLength - 6] that has the header and
    passes the checks, and it fails only when there is no such offset. *)
Theorem decoder_scans_past_failed_candidate :
  forall (data out : list byte) (maxTextLength i : Z),
    Z.of_nat (length data) <= MAX_DATA_LENGTH ->
    maxTextLength <= Z.of_nat (length out) ->
    0 <= i < Z.of_nat (length data) - 6 ->
    has_header data i = true ->
    (forall k, 0 <= k < i -> has_header data k = false) ->
    lengths_ok data (Z.of_nat (length data)) maxTextLength i = false ->
    (forall j, i < j < Z.of_nat (length data) - 6 ->
       accepts data (Z.of_nat (length data)) maxTextLength j = true ->
       (forall k, i < k < j ->
          accepts data (Z.of_nat (length data)) maxTextLength k = false) ->
       parseNDEFTextRecord data (Z.of_nat (length data)) maxTextLength out
       = Some (true, written out (text_at data j)))
    /\ ((forall j, i < j < Z.of_nat (length data) - 6 ->
           accepts data (Z.of_nat (length data)) maxTextLength j = false) ->
        parseNDEFTextRecord data (Z.of_nat (length data)) maxTextLength out
        = Some (false, out)).
Proof.
  intros data out maxT i Hlen Hcap Hi Hhdr Hfirst Hbad.
  assert (Hrej : forall k, 0 <= k <= i ->
            accepts data (Z.of_nat (length data)) maxT k = false).
  { intros k Hk. unfold accepts. destruct (Z.eq_dec k i) as [->|Hne].
    - rewrite Hbad. apply andb_false_r.
    - rewrite Hfirst by lia. reflexivity. }
  split.
  - intros j Hj Hacc Hmin. rewrite parse_ok by assumption.
    rewrite (first_accepted_least _ _ _ _ 0 j); [reflexivity | lia | assumption |].
    intros k Hk. destruct (Z_le_gt_dec k i); [apply Hrej | apply Hmin]; lia.
  - intros Hnone. rewrite parse_ok by assumption.
    rewrite first_accepted_None; [reflexivity|].
    intros k Hk. destruct (Z_le_gt_dec k i); [apply Hrej | apply Hnone]; lia.
Qed.

Lemma decoder_scans_past_failed_candidate_witness :
  parseNDEFTextRecord buffer_bad_then_good 12 8 (repeat xff 8)
  = Some (true, written (repeat xff 8) (text_at buffer_bad_then_good 5)).
Proof.
  refine (proj1 (decoder_scans_past_failed_candidate
                   buffer_bad_then_good (repeat xff 8) 8 0 _ _ _ _ _ _) 5 _ _ _).
  - vm_compute; discriminate.
  - vm_compute; discriminate.
  - vm_compute; split; [discriminate | reflexivity].
  - reflexivity.
  - intros k Hk; lia.
  - reflexivity.
  - vm_compute; split; reflexivity.
  - reflexivity.
  - intros k Hk.
    assert (Hc : k = 1 \/ k = 2 \/ k = 3 \/ k = 4) by lia.
    destruct Hc as [->|[->|[->| ->]]]; reflexivity.
Defined.

(** The first header of [buffer_bad_then_good] is at offset 0 with a text
    length of -1, yet the decoder returns the text "A" of the record at
    offset 5. *)
Lemma decoder_stops_at_first_match_counterexample :
  has_header buffer_bad_then_good 0 = true
  /\ text_length buffer_bad_then_good 0 = -1
  /\ parseNDEFTextRecord buffer_bad_then_good 12 8 (repeat xff 8)
     = Some (true, [x41; x00; xff; xff; xff; xff; xff; xff]).
Proof. repeat split. Qed.

(** C2 (amended): the scan covers the offsets 0 through [dataLength - 7] from
    left to right and acts on the first one that has the header and passes
    the length checks; whatever starts at [dataLength - 6] or later is not
    looked at. *)
Theorem decoder_acts_on_first_accepted_offset :
  forall (data out : list byte) (maxTextLength : Z),
    Z.of_nat (length data) <= MAX_DATA_LENGTH ->
    maxTextLength <= Z.of_nat (length out) ->
    (forall j, 0 <= j <= Z.of_nat (length data) - 7 ->
       accepts data (Z.of_nat (length data)) maxTextLength j = true ->
       (forall k, 0 <= k < j ->
          accepts data (Z.of_nat (length data)) maxTextLength k = false) ->
       parseNDEFTextRecord data (Z.of_nat (length data)) maxTextLength out
       = Some (true, written out (text_at data j)))
    /\ ((forall k, 0 <= k <= Z.of_nat (length data) - 7 ->
           accepts data (Z.of_nat (length data)) maxTextLength k = false) ->
        parseNDEFTextRecord data (Z.of_nat (length data)) maxTextLength out
        = Some (false, out)).
Proof.
  intros data out maxT Hlen Hcap. split.
  - intros j Hj Hacc Hmin. rewrite parse_ok by assumption.
    rewrite (first_accepted_least _ _ _ _ 0 j); [reflexivity | lia | assumption |].
    intros k Hk. apply Hmin; lia.
  - intros Hnone. rewrite parse_ok by assumption.
    rewrite first_accepted_None; [reflexivity|].
    intros k Hk. apply Hnone; lia.
Qed.

Lemma decoder_acts_on_first_accepted_offset_witness :
  parseNDEFTextRecord buffer_record_before_end 8 4 (repeat xff 4)
  = Some (true, written (repeat xff 4) (text_at buffer_record_before_end 1)).
Proof.
  refine (proj1 (decoder_acts_on_first_accepted_offset
                   buffer_record_before_end (repeat xff 4) 4 _ _) 1 _ _ _).
  - vm_compute; discriminate.
  - vm_compute; discriminate.
  - vm_compute; split; discriminate.
  - reflexivity.
  - intros k Hk. assert (k = 0) as -> by lia. reflexivity.
Defined.

(** The record of [buffer_record_at_end] starts at offset 2, which is
    [dataLength - 6]; it has the header and passes every length check, and
    the decoder does not find it. *)
Lemma decoder_scans_to_length_minus_6_counterexample :
  accepts buffer_record_at_end 8 4 (8 - 6) = true
  /\ parseNDEFTextRecord buffer_record_at_end 8 4 (repeat xff 4)
     = Some (false, repeat xff 4).
Proof. split; reflexivity. Qed.

(** C3 (amended): round trip.  For a buffer
    [padding ++ [0xD1; 0x01; len; 0x54; status] ++ langcode ++ text ++ padding]
    with [len = 1 + langcodelen + textlen], the low six bits of [status]
    equal to [langcodelen], a text that is not empty and shorter than
    [maxTextLength], a record that starts before offset [dataLength - 6], and
    no offset before the record that has the header and passes the length
    checks, the decoder succeeds and writes exactly the text, then the
    terminator. *)
Theorem decoder_round_trip :
  forall (pad1 lang text pad2 out : list byte) (len status : byte)
         (maxTextLength : Z),
    let data := pad1 ++ [xd1; x01; len; x54; status] ++ lang ++ text ++ pad2 in
    let dataLength := Z.of_nat (length data) in
    dataLength <= MAX_DATA_LENGTH ->
    maxTextLength <= Z.of_nat (length out) ->
    CInt.u8 len = 1 + Z.of_nat (length lang) + Z.of_nat (length text) ->
    Z.land (CInt.u8 status) 0x3F = Z.of_nat (length lang) ->
    0 < Z.of_nat (length text) < maxTextLength ->
    Z.of_nat (length pad1) < dataLength - 6 ->
    (forall k, 0 <= k < Z.of_nat (length pad1) ->
       accepts data dataLength maxTextLength k = false) ->
    parseNDEFTextRecord data dataLength maxTextLength out
    = Some (true, text ++ NUL :: skipn (length text + 1) out).
Proof.
  intros pad1 lang text pad2 out len status maxT data dataLength
         Hlen Hcap Hpl Hst Htext Hpos Hclean.
  set (p := Z.of_nat (length pad1)) in *.
  assert (Hb : forall k, 0 <= k ->
            byte_at data (p + k)
            = byte_at ([xd1; x01; len; x54; status] ++ lang ++ text ++ pad2) k)
    by (intros k Hk; apply byte_at_app; assumption).
  assert (Hh : has_header data p = true).
  { unfold has_header. rewrite <- (Z.add_0_r p) at 1.
    rewrite !Hb by lia. reflexivity. }
  assert (Hll : lang_length data p = Z.of_nat (length lang)).
  { unfold lang_length. rewrite Hb by lia. exact Hst. }
  assert (Htl : text_length data p = Z.of_nat (length text)).
  { unfold text_length. fold (lang_length data p). rewrite Hll, Hb by lia.
    change (byte_at _ 2) with len. lia. }
  assert (Hts : text_start data p = p + 5 + Z.of_nat (length lang)).
  { unfold text_start. now rewrite Hll. }
  assert (HL : dataLength
               = p + 5 + Z.of_nat (length lang) + Z.of_nat (length text)
                 + Z.of_nat (length pad2)).
  { unfold dataLength, data, p. rewrite !length_app. cbn [length]. lia. }
  assert (Hacc : accepts data dataLength maxT p = true).
  { unfold accepts, lengths_ok. rewrite Hh, Htl, Hts. cbn [andb].
    repeat (apply andb_true_intro; split);
      [apply Z.ltb_lt | apply Z.ltb_lt | apply Z.leb_le]; lia. }
  assert (Htxt : text_at data p = text).
  { unfold text_at. rewrite Htl, Hts, Nat2Z.id.
    replace (Z.to_nat (p + 5 + Z.of_nat (length lang)))
      with (length (pad1 ++ [xd1; x01; len; x54; status] ++ lang))
      by (rewrite !length_app; cbn [length]; lia).
    replace data
      with ((pad1 ++ [xd1; x01; len; x54; status] ++ lang) ++ text ++ pad2)
      by (unfold data; rewrite <- !app_assoc; reflexivity).
    rewrite skipn_app, skipn_all, Nat.sub_diag. cbn [skipn app].
    rewrite firstn_app, firstn_all, Nat.sub_diag. cbn [firstn].
    apply app_nil_r. }
  rewrite parse_ok by assumption. fold data. fold dataLength.
  rewrite (first_accepted_least _ _ _ _ 0 p).
  - rewrite Htxt. reflexivity.
  - unfold p in *. lia.
  - assumption.
  - intros k Hk. apply Hclean. lia.
Qed.

Lemma decoder_round_trip_witness :
  parseNDEFTextRecord buffer_padded_record 12 128 (repeat xff 128)
  = Some (true, bs "Hi" ++ NUL :: skipn 3 (repeat xff 128)).
Proof.
  refine (decoder_round_trip [x03; x0a] (bs "en") (bs "Hi") [xfe]
            (repeat xff 128) x05 x02 128 _ _ _ _ _ _ _).
  - vm_compute; discriminate.
  - vm_compute; discriminate.
  - reflexivity.
  - reflexivity.
  - vm_compute; split; reflexivity.
  - vm_compute; reflexivity.
  - intros k Hk. assert (Hc : k = 0 \/ k = 1) by (cbn [length] in Hk; lia).
    destruct Hc as [-> | ->]; reflexivity.
Defined.

(** [buffer_bare_record] is built as the claim says, with no padding, no
    language code and the text "A": [len = 1 + 0 + 1], the low six bits of
    the status byte are 0, and the text is shorter than 128.  The decoder
    finds nothing in it. *)
Lemma decoder_round_trip_counterexample :
  buffer_bare_record = [] ++ [xd1; x01; x02; x54; x00] ++ [] ++ [x41] ++ []
  /\ CInt.u8 x02 = 1 + Z.of_nat (length (@nil byte)) + Z.of_nat (length [x41])
  /\ Z.land (CInt.u8 x00) 0x3F = Z.of_nat (length (@nil byte))
  /\ Z.of_nat (length [x41]) < 128
  /\ parseNDEFTextRecord buffer_bare_record 6 128 (repeat xff 128)
     = Some (false, repeat xff 128).
Proof. repeat split. Qed.

(** C10: memory safety of the decoder.  For a buffer of [dataLength] bytes
    ([dataLength] small enough for the decoder's [int] arithmetic not to
    wrap, see [MAX_DATA_LENGTH]) and an output array of at least
    [maxTextLength >= 1] cells, the decoder returns: no read of [data] and
    no write of [textOutput] is outside its array (such an access has no
    result in this model).  A failed run leaves
    the output as it was; a successful one wrote a text of [n] bytes with
    [0 < n < maxTextLength] and the terminator at index [n], that is
    [n + 1 <= maxTextLength] cells, and nothing above them. *)
Theorem decoder_memory_safe :
  forall (data out : list byte) (maxTextLength : Z),
    Z.of_nat (length data) <= MAX_DATA_LENGTH ->
    1 <= maxTextLength <= Z.of_nat (length out) ->
    exists (found : bool) (out' : list byte),
      parseNDEFTextRecord data (Z.of_nat (length data)) maxTextLength out
      = Some (found, out')
      /\ length out' = length out
      /\ (found = false -> out' = out)
      /\ (found = true ->
          exists n : nat,
            0 < Z.of_nat n < maxTextLength
            /\ nth n out' xff = NUL
            /\ skipn (n + 1) out' = skipn (n + 1) out).
Proof.
  intros data out maxT Hlen Hcap.
  rewrite parse_ok by (assumption || lia).
  destruct (first_accepted data (Z.of_nat (length data)) maxT
              (Z.to_nat (Z.of_nat (length data) - 6)) 0) as [j|] eqn:Hj.
  - apply first_accepted_Some in Hj as (Hr & Hacc & _).
    unfold accepts in Hacc. apply andb_prop in Hacc as [_ Hok].
    unfold lengths_ok in Hok.
    apply andb_prop in Hok as [Hok H3]. apply andb_prop in Hok as [H1 H2].
    apply Z.ltb_lt in H1, H2. apply Z.leb_le in H3.
    assert (Hn : length (text_at data j) = Z.to_nat (text_length data j))
      by (apply text_at_length; lia).
    exists true, (written out (text_at data j)). split; [reflexivity|].
    split; [apply written_length; lia|].
    split; [discriminate|]. intros _.
    exists (length (text_at data j)). split; [lia|]. unfold written. split.
    + rewrite app_nth2, Nat.sub_diag by lia. reflexivity.
    + rewrite skipn_app, skipn_all2 by lia.
      replace (length (text_at data j) + 1 - length (text_at data j))%nat
        with 1%nat by lia.
      reflexivity.
  - exists false, out. repeat split; try reflexivity. discriminate.
Qed.

Lemma decoder_memory_safe_witness :
  exists (found : bool) (out' : list byte),
    parseNDEFTextRecord buffer_padded_record 12 128 (repeat xff 128)
    = Some (found, out')
    /\ length out' = 128%nat
    /\ (found = false -> out' = repeat xff 128)
    /\ (found = true ->
        exists n : nat,
          0 < Z.of_nat n < 128
          /\ nth n out' xff = NUL
          /\ skipn (n + 1) out' = skipn (n + 1) (repeat xff 128)).
Proof.
  refine (decoder_memory_safe buffer_padded_record (repeat xff 128) 128 _ _).
  - vm_compute; discriminate.
  - vm_compute; split; discriminate.
Defined.

(** ** Volume control *)

Lemma float_eqb_eq (x y : spec_float) : float_eqb x y = true -> x = y.
Proof.
  destruct x as [a|a| |a m e], y as [b|b| |b m' e']; simpl; try discriminate.
  - intros H; apply Bool.eqb_prop in H; now subst.
  - intros H; apply Bool.eqb_prop in H; now subst.
  - reflexivity.
  - intros H. apply andb_prop in H as [H He]. apply andb_prop in H as [Hs Hm].
    apply Bool.eqb_prop in Hs. apply Pos.eqb_eq in Hm. apply Z.eqb_eq in He.
    now subst.
Qed.

(** A property checked on every element of [volumes] holds of each volume
    that occurs in it. *)
Lemma volumes_forall (P : F32.float -> bool) :
  forallb P volumes = true ->
  forall v, mem v volumes = true -> P v = true.
Proof.
  intros Hall v Hv. unfold mem in Hv.
  apply existsb_exists in Hv as (v' & Hin & Heq).
  apply float_eqb_eq in Heq. subst v'.
  rewrite forallb_forall in Hall. now apply Hall.
Qed.

Lemma emit_after (w : World) (e : Event) :
  emit e w = Some (tt, after w (currentVolume w) (eeprom w) [e]).
Proof. reflexivity. Qed.

Lemma after_after (w : World) v c evs v' c' evs' :
  after (after w v c evs) v' c' evs' = after w v' c' (evs ++ evs').
Proof. unfold after; cbn. now rewrite app_assoc. Qed.

Lemma after_same (w : World) :
  after w (currentVolume w) (eeprom w) [] = w.
Proof. destruct w; unfold after; cbn. now rewrite app_nil_r. Qed.

Lemma play_if_exists_after (name : list byte) (w : World) :
  play_if_exists name w
  = Some (sd_exists w name,
          after w (currentVolume w) (eeprom w)
                (if sd_exists w name then [Play name] else [])).
Proof.
  unfold play_if_exists, bind, get. destruct (sd_exists w name); cbn.
  - reflexivity.
  - unfold ret. now rewrite after_same.
Qed.

Lemma saveVolumeToEEPROM_after (w : World) :
  saveVolumeToEEPROM w
  = match F32.to_int (F32.mul (currentVolume w) (F32.of_int 100)) with
    | Some volumeInt =>
        Some (tt, after w (currentVolume w)
                    (cells_written (eeprom w) 0 volumeInt)
                    [EepromWrite 0 (CInt.to_u8 volumeInt)])
    | None => None
    end.
Proof.
  unfold saveVolumeToEEPROM, bind, get.
  destruct (F32.to_int _); reflexivity.
Qed.

Lemma volumeUp_after (w : World) :
  volumeUp w
  = if F32.leb maxVolume (currentVolume w) then
      Some (tt, after w (currentVolume w) (eeprom w)
                  (if sd_exists w (bs "VOLUMEMX.WAV")
                   then [Play (bs "VOLUMEMX.WAV")] else []))
    else
      let v := volume_after_up (currentVolume w) in
      match F32.to_int (F32.mul v (F32.of_int 100)) with
      | Some volumeInt =>
          Some (tt, after w v (cells_written (eeprom w) 0 volumeInt)
                      ([MixerGain 1 0 v; MixerGain 2 0 v;
                        EepromWrite 0 (CInt.to_u8 volumeInt)]
                       ++ (if sd_exists w (bs "VOLUMEUP.WAV")
                           then [Play (bs "VOLUMEUP.WAV")] else [])))
      | None => None
      end.
Proof.
  unfold volumeUp, volume_after_up, bind, get.
  destruct (F32.leb maxVolume (currentVolume w)) eqn:Hmax.
  - rewrite play_if_exists_after. reflexivity.
  - cbv zeta. set (v := if F32.ltb maxVolume _ then _ else _).
    unfold set_currentVolume, set_gains, emit, bind, get.
    unfold modify. cbn [currentVolume eeprom sd_exists events].
    rewrite saveVolumeToEEPROM_after. cbn [currentVolume eeprom].
    destruct (F32.to_int (F32.mul v (F32.of_int 100))) as [z|]; [|reflexivity].
    rewrite play_if_exists_after. unfold ret, after.
    cbn [currentVolume eeprom sd_exists events].
    rewrite <- !app_assoc. reflexivity.
Qed.

Lemma volumeDown_after (w : World) :
  volumeDown w
  = if F32.leb (currentVolume w) minVolume then
      Some (tt, after w (currentVolume w) (eeprom w)
                  (if sd_exists w (bs "VOLUMEMN.WAV")
                   then [Play (bs "VOLUMEMN.WAV")] else []))
    else
      let v := volume_after_down (currentVolume w) in
      match F32.to_int (F32.mul v (F32.of_int 100)) with
      | Some volumeInt =>
          Some (tt, after w v (cells_written (eeprom w) 0 volumeInt)
                      ([MixerGain 1 0 v; MixerGain 2 0 v;
                        EepromWrite 0 (CInt.to_u8 volumeInt)]
                       ++ (if sd_exists w (bs "VOLUMEDN.WAV")
                           then [Play (bs "VOLUMEDN.WAV")] else [])))
      | None => None
      end.
Proof.
  unfold volumeDown, volume_after_down, bind, get.
  destruct (F32.leb (currentVolume w) minVolume) eqn:Hmin.
  - rewrite play_if_exists_after. reflexivity.
  - cbv zeta. set (v := if F32.ltb _ minVolume then _ else _).
    unfold set_currentVolume, set_gains, emit, bind, get.
    unfold modify. cbn [currentVolume eeprom sd_exists events].
    rewrite saveVolumeToEEPROM_after. cbn [currentVolume eeprom].
    destruct (F32.to_int (F32.mul v (F32.of_int 100))) as [z|]; [|reflexivity].
    rewrite play_if_exists_after. unfold ret, after.
    cbn [currentVolume eeprom sd_exists events].
    rewrite <- !app_assoc. reflexivity.
Qed.

Lemma loadVolumeFromEEPROM_after (w : World) :
  loadVolumeFromEEPROM w
  = Some (tt,
      if CInt.u8 (eeprom w 0) <=? 100
      then after w (volume_loaded (eeprom w 0)) (eeprom w) []
      else after w (volume_loaded (eeprom w 0))
                 (cells_written (eeprom w) 0 50) [EepromWrite 0 x32]).
Proof.
  unfold loadVolumeFromEEPROM, volume_loaded, EEPROM_read, bind, get, ret.
  unfold EEPROM_VOLUME_ADDRESS.
  destruct (CInt.u8 (eeprom w 0) <=? 100) eqn:Hb.
  - unfold set_currentVolume, modify, after. now rewrite app_nil_r.
  - unfold set_currentVolume, modify. rewrite saveVolumeToEEPROM_after.
    cbn [currentVolume].
    change (F32.to_int (F32.mul (F32.of_double (F64.literal 5 10)) (F32.of_int 100)))
      with (Some 50).
    reflexivity.
Qed.

Lemma volumeUp_volume (w w' : World) :
  volumeUp w = Some (tt, w') ->
  currentVolume w' = volume_after_up (currentVolume w).
Proof.
  rewrite volumeUp_after. unfold volume_after_up at 2.
  destruct (F32.leb maxVolume (currentVolume w)) eqn:Hmax.
  - intros [= <-]. reflexivity.
  - cbv zeta. destruct (F32.to_int _); [|discriminate].
    intros [= <-]. cbn [after currentVolume]. unfold volume_after_up.
    now rewrite Hmax.
Qed.

Lemma volumeDown_volume (w w' : World) :
  volumeDown w = Some (tt, w') ->
  currentVolume w' = volume_after_down (currentVolume w).
Proof.
  rewrite volumeDown_after. unfold volume_after_down at 2.
  destruct (F32.leb (currentVolume w) minVolume) eqn:Hmin.
  - intros [= <-]. reflexivity.
  - cbv zeta. destruct (F32.to_int _); [|discriminate].
    intros [= <-]. cbn [after currentVolume]. unfold volume_after_down.
    now rewrite Hmin.
Qed.

Lemma boot_check_all (stored : byte) : boot_check stored = true.
Proof. destruct stored; vm_compute; reflexivity. Qed.

Lemma step_check_all : forallb step_check volumes = true.
Proof. vm_compute. reflexivity. Qed.

Lemma step_check_of (v : F32.float) :
  mem v volumes = true -> step_check v = true.
Proof. apply volumes_forall, step_check_all. Qed.

(** ** What a poll cycle can do to the volume *)

Lemma quiet_step_refl (w : World) : quiet_step w w.
Proof. exists []. now rewrite after_same. Qed.

Lemma searchAndPlayWAV_quiet (f t : list byte) (found : bool) (w w' : World) :
  searchAndPlayWAV f t w = Some (found, w') ->
  w' = after w (currentVolume w) (eeprom w)
             (if found then [Play (c_string
                               match wav_filename t f with
                               | Some (_, a) => a
                               | None => []
                               end)] else [])
  /\ found = sd_exists w (c_string match wav_filename t f with
                                   | Some (_, a) => a
                                   | None => []
                                   end).
Proof.
  unfold searchAndPlayWAV, bind, with_local.
  destruct (wav_filename t f) as [[u a]|]; [|discriminate].
  cbn [snd]. rewrite play_if_exists_after.
  intros [= <- <-]. split; reflexivity.
Qed.

Lemma dispatch_cases (e : Env) (t : list byte) (w w' : World) :
  dispatch e t w = Some (tt, w') ->
  quiet_step w w' \/ volumeUp w = Some (tt, w') \/ volumeDown w = Some (tt, w').
Proof.
  unfold dispatch.
  destruct (upper_in_place t) as [u|]; [|discriminate].
  destruct (strcmp u (literal "VOLUMEUP")) as [[|p|p]|]; try discriminate;
    try (intros H; right; left; exact H);
    (destruct (strcmp u (literal "VOLUMEDN")) as [[|q|q]|]; try discriminate;
     try (intros H; right; right; exact H));
    unfold bind;
    (destruct (searchAndPlayWAV (filename0 e) u w) as [[found w1]|] eqn:Hs;
     [|discriminate]);
    apply searchAndPlayWAV_quiet in Hs as [-> _];
    (destruct found;
     [ intros [= <-]; left; eexists; split; [reflexivity | reflexivity]
     | unfold playNoMatch, bind; rewrite play_if_exists_after;
       intros [= <-]; left; rewrite after_after; cbn [after currentVolume eeprom sd_exists];
       eexists; split; [reflexivity|];
       destruct (sd_exists w (bs "NOMATCH.WAV")); reflexivity ]).
Qed.

Lemma loop_cases (e : Env) (w w' : World) :
  loop e w = Some (tt, w') ->
  quiet_step w w' \/ volumeUp w = Some (tt, w') \/ volumeDown w = Some (tt, w').
Proof.
  unfold loop. destruct (tag e) as [uidLength|].
  - destruct (uidLength =? 7).
    + unfold bind at 1. unfold with_local at 1.
      destruct (for_int 4 10 (read_page e) (allData0 e, 0))
        as [[brk [allData dataIndex]]|]; [|discriminate].
      destruct ((match brk with Some _ => false | None => true end)
                && (0 <? dataIndex)).
      * unfold bind, with_local.
        destruct (parseNDEFTextRecord allData dataIndex 128 (textBuffer0 e))
          as [[found t]|]; [|discriminate].
        cbn [fst snd]. destruct found.
        -- apply dispatch_cases.
        -- intros [= <-]. left. apply quiet_step_refl.
      * intros [= <-]. left. apply quiet_step_refl.
    + rewrite emit_after. intros [= <-]. left. eexists; split; reflexivity.
  - intros [= <-]. left. apply quiet_step_refl.
Qed.

(** What [step_check] says of a volume, as propositions. *)
Lemma step_check_facts (v : F32.float) :
  mem v volumes = true ->
  (mem (volume_after_up v) volumes = true
   /\ mem (volume_after_down v) volumes = true)
  /\ (F32.leb (F32.of_int 0) v = true /\ F32.leb v maxVolume = true)
  /\ (F32.leb minVolume v = true ->
      F32.leb minVolume (volume_after_up v) = true
      /\ F32.leb minVolume (volume_after_down v) = true)
  /\ (F32.leb maxVolume v = false ->
      F32.ltb v (volume_after_up v) = true
      /\ exists z, persisted (volume_after_up v) = Some z)
  /\ (F32.leb v minVolume = false ->
      F32.ltb (volume_after_down v) v = true
      /\ exists z, persisted (volume_after_down v) = Some z).
Proof.
  intros Hv. pose proof (step_check_of _ Hv) as Hc. unfold step_check in Hc.
  apply andb_prop in Hc as [Hc Hdn]. apply andb_prop in Hc as [Hc Hup].
  apply andb_prop in Hc as [Hc Hkeep]. apply andb_prop in Hc as [Hc Hmax].
  apply andb_prop in Hc as [Hc Hzero]. apply andb_prop in Hc as [Hu Hd].
  split; [split; assumption|]. split; [split; assumption|].
  split; [|split].
  - intros Hmin. rewrite Hmin in Hkeep. now apply andb_prop in Hkeep.
  - intros Hlt. rewrite Hlt in Hup. apply andb_prop in Hup as [Hup Hsome].
    split; [assumption|].
    destruct (persisted (volume_after_up v)) as [z|];
      [now exists z | discriminate].
  - intros Hlt. rewrite Hlt in Hdn. apply andb_prop in Hdn as [Hdn Hsome].
    split; [assumption|].
    destruct (persisted (volume_after_down v)) as [z|];
      [now exists z | discriminate].
Qed.

Lemma loadVolumeFromEEPROM_volume (w w' : World) :
  loadVolumeFromEEPROM w = Some (tt, w') ->
  currentVolume w' = volume_loaded (eeprom w EEPROM_VOLUME_ADDRESS).
Proof.
  rewrite loadVolumeFromEEPROM_after. intros [= <-].
  unfold EEPROM_VOLUME_ADDRESS.
  destruct (CInt.u8 (eeprom w 0) <=? 100); reflexivity.
Qed.

(** The volume after a cycle: unchanged, or that of a volume command. *)
Lemma loop_volume (e : Env) (w w' : World) :
  loop e w = Some (tt, w') ->
  currentVolume w' = currentVolume w
  \/ currentVolume w' = volume_after_up (currentVolume w)
  \/ currentVolume w' = volume_after_down (currentVolume w).
Proof.
  intros H. apply loop_cases in H as [(evs & -> & _) | [H | H]].
  - left; reflexivity.
  - right; left. now apply volumeUp_volume.
  - right; right. now apply volumeDown_volume.
Qed.

(** Every reachable volume is one of [volumes], and it is at least
    [minVolume] when the stored byte was at least 10. *)
Lemma reachable_volume (stored : byte) (w : World) :
  reachable_from stored w ->
  mem (currentVolume w) volumes = true
  /\ (10 <= CInt.u8 stored -> F32.leb minVolume (currentVolume w) = true).
Proof.
  assert (Hstep : forall v v',
            (v' = volume_after_up v \/ v' = volume_after_down v) ->
            mem v volumes = true
            /\ (10 <= CInt.u8 stored -> F32.leb minVolume v = true) ->
            mem v' volumes = true
            /\ (10 <= CInt.u8 stored -> F32.leb minVolume v' = true)).
  { intros v v' Hv' [Hm Hl].
    destruct (step_check_facts v Hm) as ((Hu & Hd) & _ & Hkeep & _).
    destruct Hv' as [-> | ->]; (split; [assumption|]);
      intros H10; apply Hkeep; auto. }
  induction 1 as [w w' Hst Hload | w w' Hr IH Hup
                 | w w' Hr IH Hdn | e w w' Hr IH Hloop].
  - apply loadVolumeFromEEPROM_volume in Hload. rewrite Hload, Hst.
    pose proof (boot_check_all stored) as Hc. unfold boot_check in Hc.
    apply andb_prop in Hc as [Hc _]. apply andb_prop in Hc as [Hm Hl].
    split; [assumption|]. intros H10.
    apply Z.leb_le in H10. rewrite H10 in Hl. exact Hl.
  - apply volumeUp_volume in Hup. eapply Hstep; eauto.
  - apply volumeDown_volume in Hdn. eapply Hstep; eauto.
  - apply loop_volume in Hloop as [Heq | [Hup | Hdn]].
    + now rewrite Heq.
    + eapply Hstep; eauto.
    + eapply Hstep; eauto.
Qed.

(** X19: the range the volume keeps.  In every reachable state the volume
    lies in [[0.0, maxVolume]]; it lies in [[minVolume, maxVolume]] when the
    byte stored at start-up was 10 or more (above 100 it is replaced by the
    default), and a volume in [[minVolume, maxVolume]] stays there under
    every [volumeUp] and [volumeDown]. *)
Theorem volume_range_invariant :
  forall (stored : byte) (w : World),
    reachable_from stored w ->
    (F32.leb (F32.of_int 0) (currentVolume w) = true
     /\ F32.leb (currentVolume w) maxVolume = true)
    /\ (10 <= CInt.u8 stored -> F32.leb minVolume (currentVolume w) = true)
    /\ (F32.leb minVolume (currentVolume w) = true ->
        forall w', volumeUp w = Some (tt, w') \/ volumeDown w = Some (tt, w') ->
          F32.leb minVolume (currentVolume w') = true
          /\ F32.leb (currentVolume w') maxVolume = true).
Proof.
  intros stored w Hr.
  destruct (reachable_volume stored w Hr) as [Hm Hl].
  destruct (step_check_facts _ Hm) as ((Hu & Hd) & Hrange & Hkeep & _).
  split; [exact Hrange|]. split; [exact Hl|].
  intros Hmin w' Hstep. destruct (Hkeep Hmin) as [Hku Hkd].
  destruct Hstep as [Hup | Hdn].
  - apply volumeUp_volume in Hup. rewrite Hup. split; [assumption|].
    now destruct (step_check_facts _ Hu) as (_ & (_ & Hmax) & _).
  - apply volumeDown_volume in Hdn. rewrite Hdn. split; [assumption|].
    now destruct (step_check_facts _ Hd) as (_ & (_ & Hmax) & _).
Qed.

Lemma booted_reachable (stored : byte) (files : list byte -> bool) :
  reachable_from stored (booted stored files).
Proof.
  apply reach_boot with (w := boot_world stored files); [reflexivity|].
  unfold booted. rewrite loadVolumeFromEEPROM_after. reflexivity.
Qed.

Lemma volume_range_invariant_witness :
  F32.leb (F32.of_int 0) (currentVolume (booted x50 no_files)) = true
  /\ F32.leb (currentVolume (booted x50 no_files)) maxVolume = true.
Proof.
  exact (proj1 (volume_range_invariant x50 (booted x50 no_files)
                  (booted_reachable x50 no_files))).
Defined.

(** C4 (fails on the code): the range check of [loadVolumeFromEEPROM]
    tests the upper bound only.  With the byte 0 in the EEPROM the device
    starts with the volume 0.0, below [minVolume], and stores nothing in
    its place, where a byte above 100 is replaced by the default;
    [volumeDown] then finds the volume at its minimum and leaves it at
    0.0. *)
Theorem volume_below_minimum_after_load :
  reachable_from x00 (booted x00 no_files)
  /\ currentVolume (booted x00 no_files) = S754_zero false
  /\ F32.leb minVolume (currentVolume (booted x00 no_files)) = false
  /\ eeprom_writes (events (booted x00 no_files)) = []
  /\ exists w,
       volumeDown (booted x00 no_files) = Some (tt, w)
       /\ reachable_from x00 w
       /\ currentVolume w = S754_zero false
       /\ eeprom_writes (events w) = [].
Proof.
  split; [apply booted_reachable|].
  split; [vm_compute; reflexivity|]. split; [vm_compute; reflexivity|].
  split; [vm_compute; reflexivity|].
  assert (Hdown : exists w, volumeDown (booted x00 no_files) = Some (tt, w)
                            /\ currentVolume w = S754_zero false
                            /\ eeprom_writes (events w) = []).
  { eexists. split; [vm_compute; reflexivity|].
    split; vm_compute; reflexivity. }
  destruct Hdown as (w & Hdown & Hv & Hw).
  exists w. split; [exact Hdown|]. split; [|split; assumption].
  apply reach_down with (w := booted x00 no_files);
    [apply booted_reachable | exact Hdown].
Qed.

(** C5 (fails on the code): [saveVolumeToEEPROM] truncates.  Starting from a
    stored 100, the second [volumeDown] leaves the volume
    13421772 * 2^-24 = 0.79999995...; the integer nearest to a hundred times
    it is 80, and the byte written is 79. *)
Theorem volume_persisted_by_truncation :
  exists w,
    bind loadVolumeFromEEPROM (fun _ => bind volumeDown (fun _ => volumeDown))
         (boot_world x64 no_files) = Some (tt, w)
    /\ currentVolume w = S754_finite false 13421772 (-24)
    /\ round_x100 (currentVolume w) = Some 80
    /\ eeprom_writes (events w) = [(0, x5a); (0, x4f)]
    /\ CInt.u8 (eeprom w EEPROM_VOLUME_ADDRESS) = 79.
Proof.
  eexists. split; [vm_compute; reflexivity|].
  cbn [currentVolume events eeprom].
  split; [reflexivity|]. split; [vm_compute; reflexivity|].
  split; vm_compute; reflexivity.
Qed.

(** C7: a volume command in a reachable state.  When the volume is at the
    bound the command aims at (at or beyond it, by the inclusive comparison
    of the code), the volume and the EEPROM stay as they are and nothing is
    written.  Otherwise the volume moves by one step, clamped to the bound,
    to a different value, and exactly one byte is written, at the volume's
    address. *)
Theorem volume_command_effects :
  forall w : World,
    reachable w ->
    (exists w' evs,
        volumeUp w = Some (tt, w') /\ events w' = events w ++ evs
        /\ if F32.leb maxVolume (currentVolume w)
           then currentVolume w' = currentVolume w /\ eeprom w' = eeprom w
                /\ eeprom_writes evs = []
           else currentVolume w'
                = (let v := F32.add (currentVolume w) volumeStep in
                   if F32.ltb maxVolume v then maxVolume else v)
                /\ F32.ltb (currentVolume w) (currentVolume w') = true
                /\ exists value,
                     eeprom_writes evs = [(EEPROM_VOLUME_ADDRESS, value)]
                     /\ eeprom w' EEPROM_VOLUME_ADDRESS = value)
    /\ (exists w' evs,
        volumeDown w = Some (tt, w') /\ events w' = events w ++ evs
        /\ if F32.leb (currentVolume w) minVolume
           then currentVolume w' = currentVolume w /\ eeprom w' = eeprom w
                /\ eeprom_writes evs = []
           else currentVolume w'
                = (let v := F32.sub (currentVolume w) volumeStep in
                   if F32.ltb v minVolume then minVolume else v)
                /\ F32.ltb (currentVolume w') (currentVolume w) = true
                /\ exists value,
                     eeprom_writes evs = [(EEPROM_VOLUME_ADDRESS, value)]
                     /\ eeprom w' EEPROM_VOLUME_ADDRESS = value).
Proof.
  intros w [stored Hr].
  destruct (reachable_volume stored w Hr) as [Hm _].
  destruct (step_check_facts _ Hm) as (_ & _ & _ & Hup & Hdn).
  split.
  - rewrite volumeUp_after.
    destruct (F32.leb maxVolume (currentVolume w)) eqn:Hmax.
    + do 2 eexists. split; [reflexivity|]. split; [reflexivity|].
      split; [reflexivity|]. split; [reflexivity|].
      destruct (sd_exists w (bs "VOLUMEMX.WAV")); reflexivity.
    + destruct (Hup eq_refl) as [Hlt [z Hz]]. cbv zeta.
      unfold persisted in Hz. rewrite Hz.
      do 2 eexists. split; [reflexivity|]. split; [reflexivity|].
      cbn [after currentVolume eeprom].
      split; [unfold volume_after_up; now rewrite Hmax|].
      split; [assumption|].
      exists (CInt.to_u8 z). split; [|reflexivity].
      destruct (sd_exists w (bs "VOLUMEUP.WAV")); reflexivity.
  - rewrite volumeDown_after.
    destruct (F32.leb (currentVolume w) minVolume) eqn:Hmin.
    + do 2 eexists. split; [reflexivity|]. split; [reflexivity|].
      split; [reflexivity|]. split; [reflexivity|].
      destruct (sd_exists w (bs "VOLUMEMN.WAV")); reflexivity.
    + destruct (Hdn eq_refl) as [Hlt [z Hz]]. cbv zeta.
      unfold persisted in Hz. rewrite Hz.
      do 2 eexists. split; [reflexivity|]. split; [reflexivity|].
      cbn [after currentVolume eeprom].
      split; [unfold volume_after_down; now rewrite Hmin|].
      split; [assumption|].
      exists (CInt.to_u8 z). split; [|reflexivity].
      destruct (sd_exists w (bs "VOLUMEDN.WAV")); reflexivity.
Qed.

Lemma volume_command_effects_witness :
  exists w' evs,
    volumeUp (booted x32 no_files) = Some (tt, w')
    /\ events w' = events (booted x32 no_files) ++ evs
    /\ if F32.leb maxVolume (currentVolume (booted x32 no_files))
       then currentVolume w' = currentVolume (booted x32 no_files)
            /\ eeprom w' = eeprom (booted x32 no_files)
            /\ eeprom_writes evs = []
       else currentVolume w'
            = (let v := F32.add (currentVolume (booted x32 no_files)) volumeStep in
               if F32.ltb maxVolume v then maxVolume else v)
            /\ F32.ltb (currentVolume (booted x32 no_files)) (currentVolume w') = true
            /\ exists value,
                 eeprom_writes evs = [(EEPROM_VOLUME_ADDRESS, value)]
                 /\ eeprom w' EEPROM_VOLUME_ADDRESS = value.
Proof.
  refine (proj1 (volume_command_effects (booted x32 no_files)
                   (ex_intro _ x32 _))).
  apply reach_boot with (w := boot_world x32 no_files);
    vm_compute; reflexivity.
Defined.

(** C8: self-healing load.  A stored byte above 100 sets the volume to the
    default 0.5 and writes 50 to the volume's address at once; a stored byte
    of at most 100 sets the volume to the binary32 nearest to
    [stored / 100] and writes nothing. *)
Theorem load_self_heals :
  forall w : World,
    (100 < CInt.u8 (eeprom w EEPROM_VOLUME_ADDRESS) ->
     exists w',
       loadVolumeFromEEPROM w = Some (tt, w')
       /\ currentVolume w' = nearest_quotient 5 10
       /\ CInt.u8 (eeprom w' EEPROM_VOLUME_ADDRESS) = 50
       /\ events w' = events w ++ [EepromWrite EEPROM_VOLUME_ADDRESS x32])
    /\ (CInt.u8 (eeprom w EEPROM_VOLUME_ADDRESS) <= 100 ->
        exists w',
          loadVolumeFromEEPROM w = Some (tt, w')
          /\ currentVolume w'
             = nearest_quotient (CInt.u8 (eeprom w EEPROM_VOLUME_ADDRESS)) 100
          /\ eeprom w' = eeprom w
          /\ events w' = events w).
Proof.
  intros w. unfold EEPROM_VOLUME_ADDRESS.
  rewrite loadVolumeFromEEPROM_after. split; intros Hb.
  - apply Z.leb_gt in Hb. rewrite Hb. eexists. split; [reflexivity|].
    cbn [after currentVolume eeprom events]. unfold volume_loaded.
    rewrite Hb. repeat split.
  - pose proof Hb as Hb'. apply Z.leb_le in Hb'. rewrite Hb'.
    eexists. split; [reflexivity|].
    cbn [after currentVolume eeprom events]. rewrite app_nil_r.
    split; [|split; reflexivity].
    pose proof (boot_check_all (eeprom w 0)) as Hc. unfold boot_check in Hc.
    apply andb_prop in Hc as [_ Hq]. rewrite Hb' in Hq.
    now apply float_eqb_eq in Hq.
Qed.

(** ** Failed page reads *)

Lemma store_length (k : Z) (v : byte) (a a' : list byte) :
  store k v a = Some (tt, a') -> length a' = length a.
Proof.
  unfold store. destruct (in_array k a); [|discriminate].
  intros [= <-]. apply update_length.
Qed.

Lemma store_all_defined (src : list byte) :
  forall (k : Z) (a : list byte),
    0 <= k -> k + Z.of_nat (length src) <= Z.of_nat (length a) ->
    exists a', store_all k src a = Some (tt, a') /\ length a' = length a.
Proof.
  induction src as [|c src IH]; intros k a Hk Hfit.
  - exists a. split; reflexivity.
  - cbn [store_all length] in *. unfold bind.
    destruct (store k c a) as [[[] a1]|] eqn:Hs.
    + pose proof (store_length _ _ _ _ Hs) as Hl.
      destruct (IH (k + 1) a1) as (a' & Hs' & Hl'); [lia | rewrite Hl; lia |].
      exists a'. split; [assumption | congruence].
    + unfold store in Hs. rewrite in_array_true in Hs by lia. discriminate.
Qed.

(** The page loop ends with the [break] as soon as a page of its range
    fails. *)
Lemma read_pages_break (e : Env) (n : nat) :
  forall (i : Z) (allData : list byte) (dataIndex : Z),
    0 <= i -> i + Z.of_nat n <= 256 ->
    (24 <= length allData)%nat -> 0 <= dataIndex <= 24 ->
    (exists p, i <= p < i + Z.of_nat n /\ page e p = None) ->
    exists st,
      for_iter n i (read_page e) (allData, dataIndex) = Some (Some tt, st).
Proof.
  induction n as [|n IH]; intros i allData dataIndex Hi Hn Hcap Hidx (p & Hp & Hfail).
  - lia.
  - cbn [for_iter]. unfold bind, read_page at 1.
    destruct (page e i) as [[[[b0 b1] b2] b3]|] eqn:Hpage.
    + assert (Hnext : exists q, i + 1 <= q < i + 1 + Z.of_nat n /\ page e q = None).
      { exists p. split; [|assumption].
        destruct (Z.eq_dec p i) as [->|]; [congruence | lia]. }
      rewrite (add_small i 1) by (unfold CInt.INT_MIN, CInt.INT_MAX; lia).
      rewrite (add_small dataIndex 4) by (unfold CInt.INT_MIN, CInt.INT_MAX; lia).
      destruct (dataIndex + 4 <=? 24) eqn:Hroom.
      * apply Z.leb_le in Hroom.
        destruct (store_all_defined [b0; b1; b2; b3] dataIndex allData)
          as (a' & Hs & Hl); [lia | cbn [length]; lia |].
        rewrite Hs. apply IH; try lia. assumption.
      * apply IH; try lia. assumption.
    + eexists. reflexivity.
Qed.

(** C9: a cycle in which the read of one of the pages 4 to 9 fails plays
    nothing (the no-match sound included), writes nothing to the EEPROM and
    leaves the volume as it is: with a 7-byte UID the device does nothing at
    all, and the decoder's result is not acted on. *)
Theorem failed_page_read_aborts_cycle :
  forall (e : Env) (w : World),
    well_formed_env e ->
    (exists p, 4 <= p <= 9 /\ page e p = None) ->
    exists evs,
      loop e w = Some (tt, after w (currentVolume w) (eeprom w) evs)
      /\ plays evs = [] /\ eeprom_writes evs = []
      /\ (tag e = Some 7 -> evs = []).
Proof.
  intros e w (Hall & _ & _) (p & Hp & Hfail).
  unfold loop. destruct (tag e) as [uidLength|].
  - destruct (uidLength =? 7) eqn:Huid.
    + destruct (read_pages_break e 6 4 (allData0 e) 0) as ([allData dataIndex] & Hbrk);
        [lia | lia | lia | lia | exists p; split; [lia | assumption] |].
      unfold bind, with_local, for_int.
      change (Z.to_nat (10 - 4)) with 6%nat. rewrite Hbrk.
      cbn [andb]. exists []. rewrite after_same. repeat split.
    + rewrite emit_after. eexists. split; [reflexivity|].
      split; [reflexivity|]. split; [reflexivity|].
      intros [= ->]. discriminate.
  - exists []. unfold ret. rewrite after_same. repeat split.
Qed.

Lemma failed_page_read_aborts_cycle_witness :
  exists evs,
    loop env_fourth_page_fails (booted x32 (fun _ => true))
    = Some (tt, after (booted x32 (fun _ => true))
                  (currentVolume (booted x32 (fun _ => true)))
                  (eeprom (booted x32 (fun _ => true))) evs)
    /\ plays evs = [] /\ eeprom_writes evs = []
    /\ (tag env_fourth_page_fails = Some 7 -> evs = []).
Proof.
  refine (failed_page_read_aborts_cycle env_fourth_page_fails _ _ _).
  - repeat split.
  - exists 7. split; [lia | reflexivity].
Defined.

(** ** C strings *)

Lemma is_NUL_true (c : byte) : is_NUL c = true -> c = NUL.
Proof. destruct c; intros H; try reflexivity; discriminate H. Qed.

Lemma toupper_char_not_NUL (c : byte) :
  is_NUL c = false -> is_NUL (toupper_char c) = false.
Proof. destruct c; intros H; try reflexivity; discriminate H. Qed.

Lemma toupper_char_idempotent (c : byte) :
  toupper_char (toupper_char c) = toupper_char c.
Proof. destruct c; reflexivity. Qed.

Lemma u8_injective (a b : byte) : CInt.u8 a = CInt.u8 b -> a = b.
Proof.
  unfold CInt.u8. intros H. apply N2Z.inj in H.
  pose proof (Byte.of_to_N a) as Ha. rewrite H, Byte.of_to_N in Ha.
  now injection Ha.
Qed.

Lemma bytes_eqb_eq (a b : list byte) : bytes_eqb a b = true <-> a = b.
Proof.
  revert b; induction a as [|x a IH]; intros [|y b]; cbn [bytes_eqb];
    try (split; [discriminate | discriminate]); [tauto|].
  split.
  - intros H. apply andb_prop in H as [Hxy Hab].
    apply Byte.byte_dec_bl in Hxy. apply IH in Hab. now subst.
  - intros [= -> ->]. apply andb_true_intro. split.
    + now apply Byte.byte_dec_lb.
    + now apply IH.
Qed.

Lemma uppercase_NUL_free (t : list byte) : NUL_free t -> NUL_free (uppercase t).
Proof.
  unfold NUL_free, uppercase. intros H. apply Forall_map.
  eapply Forall_impl; [|exact H]. apply toupper_char_not_NUL.
Qed.

Lemma uppercase_idempotent (t : list byte) : uppercase (uppercase t) = uppercase t.
Proof.
  unfold uppercase. rewrite map_map. apply map_ext.
  apply toupper_char_idempotent.
Qed.

Lemma strlen_exact (t r : list byte) :
  NUL_free t -> strlen (t ++ NUL :: r) = Some (Z.of_nat (length t)).
Proof.
  induction 1 as [|c t Hc Ht IH]; [reflexivity|].
  cbn [app strlen length]. rewrite Hc, IH. f_equal. lia.
Qed.

Lemma c_string_exact (t r : list byte) :
  NUL_free t -> c_string (t ++ NUL :: r) = t.
Proof.
  induction 1 as [|c t Hc Ht IH]; [reflexivity|].
  cbn [app c_string]. now rewrite Hc, IH.
Qed.

(** An array with a terminator after [l] holds a C string no longer than
    [l]. *)
Lemma c_string_split (l r : list byte) :
  exists t r', l ++ NUL :: r = t ++ NUL :: r' /\ NUL_free t
               /\ (length t <= length l)%nat.
Proof.
  induction l as [|c l (t & r' & Heq & Hfree & Hlen)].
  - exists [], r. repeat split; [constructor | reflexivity].
  - destruct (is_NUL c) eqn:Hc.
    + apply is_NUL_true in Hc. subst c.
      exists [], (l ++ NUL :: r). repeat split; [constructor | cbn; lia].
    + exists (c :: t), r'. cbn [app]. rewrite Heq.
      repeat split; [now constructor | cbn; lia].
Qed.

Lemma upper_in_place_exact (t r : list byte) :
  NUL_free t -> upper_in_place (t ++ NUL :: r) = Some (uppercase t ++ NUL :: r).
Proof.
  induction 1 as [|c t Hc Ht IH]; [reflexivity|].
  cbn [app upper_in_place uppercase map]. rewrite Hc.
  fold (uppercase t). now rewrite IH.
Qed.

(** [strcmp] against a literal is defined, and is 0 exactly on equal
    strings. *)
Lemma strcmp_literal (t : list byte) :
  forall (s r : list byte),
    NUL_free t -> NUL_free s ->
    exists z, strcmp (t ++ NUL :: r) (s ++ [NUL]) = Some z
              /\ (z = 0 <-> t = s).
Proof.
  assert (Hnz : forall c, is_NUL c = false -> CInt.u8 c <> 0)
    by (intros c Hc; unfold is_NUL in Hc; now apply Z.eqb_neq in Hc).
  induction t as [|c t IH]; intros s r Ht Hs.
  - destruct s as [|d s].
    + exists 0. split; [reflexivity | tauto].
    + inversion Hs as [|? ? Hd Hs']; subst. apply Hnz in Hd.
      exists (CInt.u8 NUL - CInt.u8 d). cbn [app strcmp].
      replace (CInt.u8 NUL =? CInt.u8 d) with false
        by (symmetry; apply Z.eqb_neq; change (CInt.u8 NUL) with 0; lia).
      split; [reflexivity|]. change (CInt.u8 NUL) with 0.
      split; [lia | discriminate].
  - inversion Ht as [|? ? Hc Ht']; subst. pose proof (Hnz _ Hc) as Hc0.
    destruct s as [|d s].
    + exists (CInt.u8 c - CInt.u8 NUL). cbn [app strcmp].
      replace (CInt.u8 c =? CInt.u8 NUL) with false
        by (symmetry; apply Z.eqb_neq; change (CInt.u8 NUL) with 0; lia).
      split; [reflexivity|]. change (CInt.u8 NUL) with 0.
      split; [lia | discriminate].
    + inversion Hs as [|? ? Hd Hs']; subst.
      cbn [app strcmp]. destruct (CInt.u8 c =? CInt.u8 d) eqn:Hcd.
      * apply Z.eqb_eq, u8_injective in Hcd. subst d. rewrite Hc.
        destruct (IH s r Ht' Hs') as (z & Hz & Hiff).
        exists z. split; [assumption|]. rewrite Hiff.
        split; [now intros -> | now intros [= ->]].
      * exists (CInt.u8 c - CInt.u8 d). split; [reflexivity|].
        apply Z.eqb_neq in Hcd.
        split; [lia | intros [= -> _]; congruence].
Qed.

(** ** The name of the asset *)

Lemma store_all_exact (src : list byte) :
  forall (pre mid post : list byte),
    length mid = length src ->
    store_all (Z.of_nat (length pre)) src (pre ++ mid ++ post)
    = Some (tt, pre ++ src ++ post).
Proof.
  induction src as [|c src IH]; intros pre mid post Hmid.
  - destruct mid; [reflexivity | discriminate].
  - destruct mid as [|x mid]; [discriminate|]. injection Hmid as Hmid.
    cbn [store_all app]. unfold bind.
    rewrite store_middle by reflexivity.
    replace (Z.of_nat (length pre) + 1) with (Z.of_nat (length (pre ++ [c])))
      by (rewrite length_app; cbn [length]; lia).
    replace (pre ++ c :: mid ++ post) with ((pre ++ [c]) ++ mid ++ post)
      by (rewrite <- app_assoc; reflexivity).
    rewrite IH by assumption. rewrite <- app_assoc. reflexivity.
Qed.

(** The copying loop of [searchAndPlayWAV]: [k] characters from index [i]. *)
Lemma copy_loop_exact (textBuffer : list byte) (k : nat) :
  forall (i : nat) (pre mid post : list byte),
    length pre = i -> length mid = k ->
    (i + k <= length textBuffer)%nat -> (i + k <= 1000)%nat ->
    for_iter (R := unit) k (Z.of_nat i)
      (fun i => c <- load textBuffer i ;;
                store i (toupper_char c) ;;; ret None)
      (pre ++ mid ++ post)
    = Some (None, pre ++ uppercase (firstn k (skipn i textBuffer)) ++ post).
Proof.
  induction k as [|k IH]; intros i pre mid post Hpre Hmid Hfit Hsmall.
  - destruct mid; [reflexivity | discriminate].
  - destruct mid as [|x mid]; [discriminate|]. injection Hmid as Hmid.
    cbn [for_iter]. unfold bind at 1 2 3.
    rewrite load_ok by lia. rewrite Nat2Z.id. cbn [app].
    rewrite store_middle by (now rewrite Hpre).
    unfold ret at 1.
    rewrite add_small by (unfold CInt.INT_MIN, CInt.INT_MAX; lia).
    replace (Z.of_nat i + 1) with (Z.of_nat (S i)) by lia.
    replace (pre ++ toupper_char (nth i textBuffer x00) :: mid ++ post)
      with ((pre ++ [toupper_char (nth i textBuffer x00)]) ++ mid ++ post)
      by (rewrite <- app_assoc; reflexivity).
    rewrite (IH (S i))
      by (try assumption; try lia; rewrite length_app; cbn [length]; lia).
    rewrite (skipn_cons_nth i textBuffer x00) by lia.
    cbn [firstn uppercase map]. rewrite <- app_assoc. reflexivity.
Qed.

Lemma split_array {A} (a : list A) (n k : nat) :
  (n + k <= length a)%nat ->
  exists pre mid post,
    a = pre ++ mid ++ post /\ length pre = n /\ length mid = k.
Proof.
  intros H. exists (firstn n a), (firstn k (skipn n a)), (skipn k (skipn n a)).
  rewrite !firstn_skipn, !length_firstn, length_skipn.
  repeat split; lia.
Qed.

Lemma wav_filename_exact (u r filename : list byte) :
  NUL_free u -> (length u <= 27)%nat -> length filename = 32%nat ->
  exists rest,
    wav_filename (u ++ NUL :: r) filename
    = Some (tt, uppercase u ++ bs ".WAV" ++ NUL :: rest).
Proof.
  intros Hu Hlen Hf.
  destruct (split_array filename (length u) 5) as (pre & mid & post & -> & Hpre & Hmid);
    [lia|].
  destruct mid as [|x mid]; [discriminate|]. injection Hmid as Hmid.
  exists post. unfold wav_filename.
  rewrite strlen_exact by assumption.
  unfold for_int. rewrite Z.min_l, Z.sub_0_r, Nat2Z.id by lia.
  unfold bind at 1.
  pose proof (copy_loop_exact (u ++ NUL :: r) (length u) 0 []
                pre ((x :: mid) ++ post)) as Hcopy.
  cbn [app length] in Hcopy. change (Z.of_nat 0) with 0 in Hcopy.
  cbn [app]. rewrite Hcopy;
    [| reflexivity | assumption
     | rewrite length_app; cbn [length]; lia | lia].
  cbn [skipn]. rewrite firstn_app, firstn_all, Nat.sub_diag.
  cbn [firstn]. rewrite app_nil_r.
  assert (Hup : length (uppercase u) = length u) by apply length_map.
  unfold bind at 1.
  rewrite store_middle by (now rewrite Hup).
  unfold strcat, bind, get.
  rewrite strlen_exact by (now apply uppercase_NUL_free).
  change (strlen (literal ".WAV")) with (Some 4). cbv beta iota.
  change (firstn (Z.to_nat 4 + 1) (literal ".WAV")) with (literal ".WAV").
  change (NUL :: mid ++ post) with ((NUL :: mid) ++ post).
  rewrite store_all_exact by (cbn [length]; rewrite Hmid; reflexivity).
  reflexivity.
Qed.

(** The dispatch on a text of at most 27 characters is the classifier's. *)
Lemma dispatch_classify (e : Env) (t r : list byte) (w : World) :
  NUL_free t -> (length t <= 27)%nat -> length (filename0 e) = 32%nat ->
  dispatch e (t ++ NUL :: r) w = perform (classify t) w.
Proof.
  intros Ht Hlen Hf. unfold dispatch, classify.
  rewrite upper_in_place_exact by assumption.
  pose proof (uppercase_NUL_free t Ht) as Hu.
  assert (Hlit : forall s, NUL_free s ->
            exists z, strcmp (uppercase t ++ NUL :: r) (s ++ [NUL]) = Some z
                      /\ (z = 0 <-> bytes_eqb (uppercase t) s = true)).
  { intros s Hs. destruct (strcmp_literal (uppercase t) s r Hu Hs)
      as (z & Hz & Hiff).
    exists z. split; [exact Hz|]. rewrite Hiff. symmetry. apply bytes_eqb_eq. }
  destruct (Hlit (bs "VOLUMEUP")) as (z1 & Hz1 & Hiff1);
    [repeat constructor|].
  destruct (Hlit (bs "VOLUMEDN")) as (z2 & Hz2 & Hiff2);
    [repeat constructor|].
  unfold literal. rewrite Hz1.
  destruct (bytes_eqb (uppercase t) (bs "VOLUMEUP")) eqn:H1.
  { replace z1 with 0 by (symmetry; now apply Hiff1). reflexivity. }
  assert (Hn1 : z1 <> 0) by (intros H0; apply Hiff1 in H0; discriminate).
  rewrite Hz2.
  destruct (bytes_eqb (uppercase t) (bs "VOLUMEDN")) eqn:H2.
  { replace z2 with 0 by (symmetry; now apply Hiff2).
    destruct z1; [contradiction | reflexivity | reflexivity]. }
  assert (Hn2 : z2 <> 0) by (intros H0; apply Hiff2 in H0; discriminate).
  assert (Hsearch :
    (found <- searchAndPlayWAV (filename0 e) (uppercase t ++ NUL :: r) ;;
     if found then ret tt else playNoMatch) w
    = perform (PlayAsset (uppercase t ++ bs ".WAV")) w).
  { cbn [perform]. unfold searchAndPlayWAV, with_local, bind at 1 2.
    assert (Hlu : (length (uppercase t) <= 27)%nat)
      by (unfold uppercase; rewrite length_map; assumption).
    destruct (wav_filename_exact (uppercase t) r (filename0 e) Hu Hlu Hf)
      as (rest & ->).
    cbn [snd]. rewrite uppercase_idempotent, app_assoc.
    rewrite c_string_exact.
    - reflexivity.
    - apply Forall_app. split; [exact Hu | repeat constructor]. }
  destruct z1; [contradiction | |];
    (destruct z2; [contradiction | |]); exact Hsearch.
Qed.

(** ** The classifier *)

(** A C string ends at the first NUL of the bytes written. *)
Lemma c_string_before_NUL (t r : list byte) :
  c_string (t ++ NUL :: r) = c_string t.
Proof.
  induction t as [|c t IH]; [reflexivity|].
  cbn [app c_string]. now rewrite IH.
Qed.

(** C6 (amended): the decoder copies the text [t] of the record, NUL bytes
    included, and the cycle acts on the C string the copy holds, which is
    [t] up to its first NUL: it runs [volumeUp] when that string uppercased
    is "VOLUMEUP", else [volumeDown] when it is "VOLUMEDN", else looks up
    and plays the asset named by the uppercased string followed by ".WAV".
    For a text without NUL this is the classification of [t] itself; no
    text is left without an action, and the empty string names ".WAV".
    The tag buffer has at most 32 bytes (the device's has 24). *)
Theorem decoded_text_dispatch :
  forall (e : Env) (data textBuffer : list byte) (w : World),
    well_formed_env e ->
    (length data <= 32)%nat ->
    parseNDEFTextRecord data (Z.of_nat (length data)) 128 (textBuffer0 e)
    = Some (true, textBuffer) ->
    (exists j,
        first_accepted data (Z.of_nat (length data)) 128
                       (Z.to_nat (Z.of_nat (length data) - 6)) 0 = Some j
        /\ textBuffer = written (textBuffer0 e) (text_at data j)
        /\ dispatch e textBuffer w
           = perform (classify (c_string (text_at data j))) w
        /\ (NUL_free (text_at data j) ->
            dispatch e textBuffer w = perform (classify (text_at data j)) w))
    /\ classify [] = PlayAsset (bs ".WAV").
Proof.
  intros e data tb w (_ & Htb & Hfn) Hdata Hparse.
  split; [|reflexivity].
  assert (Hlen : Z.of_nat (length data) <= MAX_DATA_LENGTH)
    by (unfold MAX_DATA_LENGTH, CInt.INT_MAX; lia).
  rewrite parse_ok in Hparse by (assumption || (rewrite Htb; lia)).
  destruct (first_accepted data (Z.of_nat (length data)) 128
              (Z.to_nat (Z.of_nat (length data) - 6)) 0) as [j|] eqn:Hj;
    [|discriminate].
  injection Hparse as <-.
  exists j. split; [reflexivity|]. split; [reflexivity|].
  apply first_accepted_Some in Hj as (Hr & Hacc & _).
  unfold accepts in Hacc. apply andb_prop in Hacc as [_ Hok].
  unfold lengths_ok in Hok.
  apply andb_prop in Hok as [Hok H3]. apply andb_prop in Hok as [H1 H2].
  apply Z.ltb_lt in H1, H2. apply Z.leb_le in H3.
  assert (Htext : (length (text_at data j) <= 27)%nat).
  { rewrite (text_at_length data) by lia.
    pose proof (low6_range _ (proj1 (u8_range (byte_at data (j + 4))))) as Hl.
    fold (lang_length data j) in Hl.
    assert (text_start data j = j + 5 + lang_length data j) by reflexivity.
    lia. }
  assert (Hstring :
    dispatch e (written (textBuffer0 e) (text_at data j)) w
    = perform (classify (c_string (text_at data j))) w).
  { unfold written.
    destruct (c_string_split (text_at data j)
                (skipn (length (text_at data j) + 1) (textBuffer0 e)))
      as (t & r & Heq & Hfree & Hshort).
    rewrite <- (c_string_before_NUL (text_at data j)
                  (skipn (length (text_at data j) + 1) (textBuffer0 e))).
    rewrite Heq, c_string_exact by assumption.
    apply dispatch_classify; [assumption | lia | assumption]. }
  split; [exact Hstring|].
  intros Hfree. rewrite Hstring. do 2 f_equal.
  rewrite <- (c_string_before_NUL (text_at data j) []).
  now apply c_string_exact.
Qed.

Lemma decoded_text_dispatch_witness :
  (exists j,
      first_accepted museum_pages (Z.of_nat (length museum_pages)) 128
                     (Z.to_nat (Z.of_nat (length museum_pages) - 6)) 0 = Some j
      /\ written (repeat xff 128) (bs "museum")
         = written (textBuffer0 (env_of_pages museum_pages))
                   (text_at museum_pages j)
      /\ dispatch (env_of_pages museum_pages)
                  (written (repeat xff 128) (bs "museum"))
                  (booted x32 no_files)
         = perform (classify (c_string (text_at museum_pages j)))
                   (booted x32 no_files)
      /\ (NUL_free (text_at museum_pages j) ->
          dispatch (env_of_pages museum_pages)
                   (written (repeat xff 128) (bs "museum"))
                   (booted x32 no_files)
          = perform (classify (text_at museum_pages j)) (booted x32 no_files)))
  /\ classify [] = PlayAsset (bs ".WAV").
Proof.
  refine (decoded_text_dispatch (env_of_pages museum_pages) museum_pages
            (written (repeat xff 128) (bs "museum")) (booted x32 no_files)
            _ _ _).
  - repeat split.
  - vm_compute. repeat constructor.
  - vm_compute. reflexivity.
Defined.

(** The claim as written, on the text the decoder returns, fails when the
    text holds a NUL.  The tag [volume_up_NUL_pages] is decoded to the ten
    bytes of [text_with_NUL], whose classification is the asset of that
    name; the cycle raises the volume. *)
Lemma decoded_text_with_NUL_counterexample :
  parseNDEFTextRecord volume_up_NUL_pages 24 128 (repeat xff 128)
  = Some (true, written (repeat xff 128) text_with_NUL)
  /\ classify text_with_NUL = PlayAsset (text_with_NUL ++ bs ".WAV")
  /\ dispatch (env_of_pages volume_up_NUL_pages)
              (written (repeat xff 128) text_with_NUL) (booted x32 no_files)
     = volumeUp (booted x32 no_files)
  /\ loop (env_of_pages volume_up_NUL_pages) (booted x32 no_files)
     = volumeUp (booted x32 no_files)
  /\ volumeUp (booted x32 no_files)
     <> perform (classify text_with_NUL) (booted x32 no_files).
Proof.
  split; [vm_compute; reflexivity|]. split; [reflexivity|].
  split; [vm_compute; reflexivity|]. split; [vm_compute; reflexivity|].
  intros Heq.
  apply (f_equal (fun r => match r with
                           | Some (_, w') => eeprom_writes (events w')
                           | None => []
                           end)) in Heq.
  vm_compute in Heq. discriminate Heq.
Qed.

(** The examples of the specification. *)
Example classify_volumeup :
  classify (bs "volumeup") = VolumeUp /\ classify (bs "VolumeUp") = VolumeUp
  /\ classify (bs "VOLUMEUP") = VolumeUp /\ classify (bs "volumedn") = VolumeDown
  /\ classify (bs "hello") = PlayAsset (bs "HELLO.WAV").
Proof. repeat split. Qed.

(** A tag with the text "museum" plays MUSEUM.WAV once, and nothing else. *)
Example cycle_plays_museum :
  exists w,
    loop (env_of_pages museum_pages) (booted x32 (fun _ => true)) = Some (tt, w)
    /\ events w = [Play (bs "MUSEUM.WAV")].
Proof. eexists. split; vm_compute; reflexivity. Qed.

(** At the minimum volume a "VolumeDn" tag plays VOLUMEMN.WAV and leaves the
    EEPROM alone. *)
Example cycle_volume_down_at_minimum :
  exists w,
    loop (env_of_pages volume_down_pages) (booted x0a (fun _ => true))
    = Some (tt, w)
    /\ events w = [Play (bs "VOLUMEMN.WAV")]
    /\ currentVolume w = minVolume.
Proof. eexists. split; [vm_compute; reflexivity|]. split; reflexivity. Qed.

(** The default volume is one half, and the step is the binary32 nearest to
    one tenth. *)
Example volume_constants :
  nearest_quotient 5 10 = S754_finite false 8388608 (-24)
  /\ initial_currentVolume = nearest_quotient 5 10
  /\ volumeStep = nearest_quotient 1 10
  /\ volumeStep = S754_finite false 13421773 (-27)
  /\ maxVolume = F32.of_int 1.
Proof. repeat split. Qed.

(** * Further properties of the code *)

(** ** The decoder on buffers without a record *)

(** X1: a buffer length of at most 6 leaves the scanning loop without an
    iteration: the decoder returns [false] and touches neither array,
    whatever they hold (the arrays may even be empty). *)
Theorem decoder_short_buffer :
  forall (data out : list byte) (dataLength maxTextLength : Z),
    CInt.INT_MIN + 6 <= dataLength <= 6 ->
    parseNDEFTextRecord data dataLength maxTextLength out = Some (false, out).
Proof.
  intros data out L maxT HL. unfold parseNDEFTextRecord, for_int, bind.
  rewrite sub_small by (unfold CInt.INT_MIN, CInt.INT_MAX in *; lia).
  replace (Z.to_nat (L - 6 - 0)) with 0%nat by lia. reflexivity.
Qed.

Lemma decoder_short_buffer_witness :
  parseNDEFTextRecord [xd1; x01; x02; x54; x00; x41] 6 128 []
  = Some (false, []).
Proof.
  refine (decoder_short_buffer [xd1; x01; x02; x54; x00; x41] [] 6 128 _).
  vm_compute. split; discriminate.
Defined.

(** X2: a buffer with no byte 0xD1 at the offsets 0 through
    [dataLength - 7] holds no record for the decoder: it returns [false]
    and leaves the output as it was. *)
Theorem decoder_no_header_byte :
  forall (data out : list byte) (maxTextLength : Z),
    Z.of_nat (length data) <= MAX_DATA_LENGTH ->
    maxTextLength <= Z.of_nat (length out) ->
    (forall k, 0 <= k <= Z.of_nat (length data) - 7 ->
       CInt.u8 (byte_at data k) <> 0xD1) ->
    parseNDEFTextRecord data (Z.of_nat (length data)) maxTextLength out
    = Some (false, out).
Proof.
  intros data out maxT Hlen Hcap Hno.
  rewrite parse_ok by assumption.
  rewrite first_accepted_None; [reflexivity|].
  intros k Hk. unfold accepts, has_header.
  replace (CInt.u8 (byte_at data k) =? 209) with false; [reflexivity|].
  symmetry. apply Z.eqb_neq. apply Hno. lia.
Qed.

Lemma decoder_no_header_byte_witness :
  parseNDEFTextRecord buffer_blank 24 128 (repeat xff 128)
  = Some (false, repeat xff 128).
Proof.
  refine (decoder_no_header_byte buffer_blank (repeat xff 128) 128 _ _ _).
  - vm_compute; discriminate.
  - vm_compute; discriminate.
  - intros k Hk. change (Z.of_nat (length buffer_blank)) with 24 in Hk.
    assert (Hc : exists n, (n < 18)%nat /\ k = Z.of_nat n)
      by (exists (Z.to_nat k); lia).
    destruct Hc as (n & Hn & ->).
    do 18 (destruct n as [|n]; [vm_compute; discriminate|]). lia.
Defined.

(** What a successful run wrote: the text of an accepted offset. *)
Lemma parse_success (data out out' : list byte) (maxTextLength : Z) :
  Z.of_nat (length data) <= MAX_DATA_LENGTH ->
  maxTextLength <= Z.of_nat (length out) ->
  parseNDEFTextRecord data (Z.of_nat (length data)) maxTextLength out
  = Some (true, out') ->
  exists j,
    0 <= j <= Z.of_nat (length data) - 7
    /\ accepts data (Z.of_nat (length data)) maxTextLength j = true
    /\ out' = written out (text_at data j).
Proof.
  intros Hlen Hcap Hparse. rewrite parse_ok in Hparse by assumption.
  destruct (first_accepted data (Z.of_nat (length data)) maxTextLength
              (Z.to_nat (Z.of_nat (length data) - 6)) 0) as [j|] eqn:Hj;
    [|discriminate].
  injection Hparse as <-.
  apply first_accepted_Some in Hj as (Hr & Hacc & _).
  exists j. split; [lia|]. split; [assumption | reflexivity].
Qed.

(** The lengths of an accepted candidate. *)
Lemma accepts_lengths (data : list byte) (maxTextLength j : Z) :
  0 <= j ->
  accepts data (Z.of_nat (length data)) maxTextLength j = true ->
  0 < text_length data j < maxTextLength
  /\ text_length data j <= 254
  /\ j + 5 <= text_start data j
  /\ text_start data j + text_length data j <= Z.of_nat (length data)
  /\ length (text_at data j) = Z.to_nat (text_length data j).
Proof.
  intros Hj Hacc. unfold accepts in Hacc. apply andb_prop in Hacc as [_ Hok].
  unfold lengths_ok in Hok.
  apply andb_prop in Hok as [Hok H3]. apply andb_prop in Hok as [H1 H2].
  apply Z.ltb_lt in H1, H2. apply Z.leb_le in H3.
  pose proof (low6_range _ (proj1 (u8_range (byte_at data (j + 4))))) as Hl.
  fold (lang_length data j) in Hl.
  pose proof (u8_range (byte_at data (j + 2))) as Hp.
  assert (text_start data j = j + 5 + lang_length data j) by reflexivity.
  assert (text_length data j
          = CInt.u8 (byte_at data (j + 2)) - 1 - lang_length data j)
    by reflexivity.
  repeat split; try lia. apply text_at_length; lia.
Qed.

(** X3: what the decoder returns is a slice of the buffer.  On success the
    output holds a text that stands in [data] behind at least five bytes,
    followed by the terminator; the text has between 1 and 254 bytes, fewer
    than [maxTextLength] and at most [dataLength - 5]. *)
Theorem decoded_text_is_slice :
  forall (data out out' : list byte) (maxTextLength : Z),
    Z.of_nat (length data) <= MAX_DATA_LENGTH ->
    maxTextLength <= Z.of_nat (length out) ->
    parseNDEFTextRecord data (Z.of_nat (length data)) maxTextLength out
    = Some (true, out') ->
    exists pre text post,
      data = pre ++ text ++ post
      /\ (5 <= length pre)%nat
      /\ (1 <= length text <= 254)%nat
      /\ Z.of_nat (length text) < maxTextLength
      /\ out' = text ++ NUL :: skipn (length text + 1) out.
Proof.
  intros data out out' maxT Hlen Hcap Hparse.
  destruct (parse_success _ _ _ _ Hlen Hcap Hparse) as (j & Hj & Hacc & ->).
  destruct (accepts_lengths data maxT j (proj1 Hj) Hacc)
    as (Hn & H254 & Hstart & Hfit & Htl).
  exists (firstn (Z.to_nat (text_start data j)) data), (text_at data j),
         (skipn (Z.to_nat (text_length data j))
                (skipn (Z.to_nat (text_start data j)) data)).
  split.
  { unfold text_at. now rewrite !firstn_skipn. }
  split; [rewrite length_firstn; lia|].
  split; [lia|]. split; [lia|]. reflexivity.
Qed.

Lemma decoded_text_is_slice_witness :
  exists pre text post,
    buffer_padded_record = pre ++ text ++ post
    /\ (5 <= length pre)%nat
    /\ (1 <= length text <= 254)%nat
    /\ Z.of_nat (length text) < 128
    /\ written (repeat xff 128) (bs "Hi")
       = text ++ NUL :: skipn (length text + 1) (repeat xff 128).
Proof.
  refine (decoded_text_is_slice buffer_padded_record (repeat xff 128)
            (written (repeat xff 128) (bs "Hi")) 128 _ _ _).
  - vm_compute; discriminate.
  - vm_compute; discriminate.
  - vm_compute; reflexivity.
Defined.

(** ** The decoder reads the declared bytes only *)

Section Beyond_the_length.

Variable data extra : list byte.
Variable maxTextLength : Z.

Local Abbreviation dataLength := (Z.of_nat (length data)).

Hypothesis Hlen : dataLength <= MAX_DATA_LENGTH.

Lemma load_app {S} (k : Z) :
  0 <= k < dataLength -> @load S (data ++ extra) k = load data k.
Proof.
  intros Hk. unfold load.
  rewrite !in_array_true by (try rewrite length_app; lia).
  rewrite app_nth1 by lia. reflexivity.
Qed.

Lemma memcpy_data_app (n : nat) :
  forall (dst src : Z) (out : list byte),
    0 <= src -> src + Z.of_nat n <= dataLength ->
    memcpy_data (data ++ extra) dst src n out = memcpy_data data dst src n out.
Proof.
  induction n as [|n IH]; intros dst src out Hsrc Hfit; [reflexivity|].
  cbn [memcpy_data]. unfold bind. rewrite load_app by lia.
  destruct (load data src out) as [[b o]|]; [|reflexivity].
  destruct (store dst b o) as [[u o']|]; [|reflexivity].
  apply IH; lia.
Qed.

Lemma parse_body_app (i : Z) (out : list byte) :
  0 <= i < dataLength - 6 ->
  parse_body (data ++ extra) dataLength maxTextLength i out
  = parse_body data dataLength maxTextLength i out.
Proof.
  intros Hi. pose proof Hlen as Hlen'.
  unfold MAX_DATA_LENGTH, CInt.INT_MAX in Hlen'.
  unfold parse_body, header_at.
  rewrite !(add_small i) by (unfold CInt.INT_MIN, CInt.INT_MAX; lia).
  rewrite !load_app by lia.
  unfold bind. rewrite !load_ok by lia.
  destruct (CInt.u8 (nth (Z.to_nat i) data x00) =? 209); [|reflexivity].
  rewrite !load_ok by lia.
  destruct (CInt.u8 (nth (Z.to_nat (i + 1)) data x00) =? 1); [|reflexivity].
  rewrite !load_ok by lia. unfold ret.
  destruct (CInt.u8 (nth (Z.to_nat (i + 3)) data x00) =? 84); [|reflexivity].
  rewrite !load_ok by lia.
  fold (byte_at data (i + 2)). fold (byte_at data (i + 4)).
  fold (lang_length data i).
  pose proof (u8_range (byte_at data (i + 2))) as Hp.
  pose proof (low6_range _ (proj1 (u8_range (byte_at data (i + 4))))) as Hl.
  fold (lang_length data i) in Hl.
  rewrite (sub_small (CInt.u8 _) 1) by (unfold CInt.INT_MIN, CInt.INT_MAX; lia).
  rewrite (sub_small (_ - 1)) by (unfold CInt.INT_MIN, CInt.INT_MAX; lia).
  rewrite (add_small (i + 5)) by (unfold CInt.INT_MIN, CInt.INT_MAX; lia).
  rewrite (add_small (i + 5 + _)) by (unfold CInt.INT_MIN, CInt.INT_MAX; lia).
  destruct ((0 <? _) && _ && _) eqn:Hok; [|reflexivity].
  apply andb_prop in Hok as [Hok H3]. apply andb_prop in Hok as [H1 H2].
  apply Z.ltb_lt in H1, H2. apply Z.leb_le in H3.
  rewrite memcpy_data_app by lia. reflexivity.
Qed.

Lemma scan_app (n : nat) :
  forall (i : Z) (out : list byte),
    0 <= i -> i + Z.of_nat n <= dataLength - 6 ->
    for_iter n i (parse_body (data ++ extra) dataLength maxTextLength) out
    = for_iter n i (parse_body data dataLength maxTextLength) out.
Proof.
  induction n as [|n IH]; intros i out Hi Hn; [reflexivity|].
  cbn [for_iter]. unfold bind. rewrite parse_body_app by lia.
  destruct (parse_body data dataLength maxTextLength i out) as [[[b|] o]|];
    try reflexivity.
  unfold MAX_DATA_LENGTH, CInt.INT_MAX in Hlen.
  rewrite add_small by (unfold CInt.INT_MIN, CInt.INT_MAX; lia).
  apply IH; lia.
Qed.

End Beyond_the_length.

(** X4: the decoder reads the first [dataLength] bytes only: whatever the
    array holds behind them has no part in the result. *)
Theorem decoder_ignores_bytes_beyond_length :
  forall (data extra out : list byte) (maxTextLength : Z),
    Z.of_nat (length data) <= MAX_DATA_LENGTH ->
    parseNDEFTextRecord (data ++ extra) (Z.of_nat (length data))
                        maxTextLength out
    = parseNDEFTextRecord data (Z.of_nat (length data)) maxTextLength out.
Proof.
  intros data extra out maxT Hlen.
  unfold parseNDEFTextRecord, for_int, bind.
  pose proof Hlen as Hlen'. unfold MAX_DATA_LENGTH, CInt.INT_MAX in Hlen'.
  rewrite sub_small by (unfold CInt.INT_MIN, CInt.INT_MAX; lia).
  rewrite Z.sub_0_r.
  destruct (Z.to_nat (Z.of_nat (length data) - 6)) as [|n] eqn:En;
    [reflexivity|].
  rewrite scan_app by (assumption || lia). reflexivity.
Qed.

Lemma decoder_ignores_bytes_beyond_length_witness :
  parseNDEFTextRecord (buffer_bare_record ++ [x00; xd1; x01; x02; x54; x00; x42])
                      6 128 (repeat xff 128)
  = parseNDEFTextRecord buffer_bare_record 6 128 (repeat xff 128).
Proof.
  refine (decoder_ignores_bytes_beyond_length buffer_bare_record
            [x00; xd1; x01; x02; x54; x00; x42] (repeat xff 128) 128 _).
  vm_compute; discriminate.
Defined.

(** ** Asset lookup *)

(** X5: for a text of at most 27 characters [searchAndPlayWAV] looks up
    exactly the uppercased text followed by ".WAV", whatever its
    uninitialised [filename] array and the cells behind the text's
    terminator hold; it plays that file when the card has it, reports
    whether it has, and changes nothing else. *)
Theorem search_plays_uppercased_name :
  forall (filename t r : list byte) (w : World),
    NUL_free t -> (length t <= 27)%nat -> length filename = 32%nat ->
    searchAndPlayWAV filename (t ++ NUL :: r) w
    = Some (sd_exists w (uppercase t ++ bs ".WAV"),
            after w (currentVolume w) (eeprom w)
                  (if sd_exists w (uppercase t ++ bs ".WAV")
                   then [Play (uppercase t ++ bs ".WAV")] else [])).
Proof.
  intros filename t r w Ht Hlen Hf.
  unfold searchAndPlayWAV, with_local, bind.
  destruct (wav_filename_exact t r filename Ht Hlen Hf) as (rest & ->).
  cbn [snd]. rewrite app_assoc, c_string_exact.
  - apply play_if_exists_after.
  - apply Forall_app. split; [now apply uppercase_NUL_free | repeat constructor].
Qed.

Lemma search_plays_uppercased_name_witness :
  searchAndPlayWAV (repeat xff 32) (bs "museum" ++ NUL :: [x41; x42])
                   (booted x32 (fun _ => true))
  = Some (true,
          after (booted x32 (fun _ => true))
                (currentVolume (booted x32 (fun _ => true)))
                (eeprom (booted x32 (fun _ => true)))
                [Play (uppercase (bs "museum") ++ bs ".WAV")]).
Proof.
  refine (search_plays_uppercased_name (repeat xff 32) (bs "museum")
            [x41; x42] (booted x32 (fun _ => true)) _ _ _).
  - repeat constructor.
  - vm_compute. repeat constructor.
  - reflexivity.
Defined.

(** X6: a text of 32 characters or more overruns [filename[32]]: the
    terminator [filename[len]] is written outside the array, so the call has
    undefined behaviour, whatever the array held. *)
Theorem search_overruns_on_long_text :
  forall (filename t r : list byte) (w : World),
    NUL_free t -> (32 <= length t)%nat -> length filename = 32%nat ->
    searchAndPlayWAV filename (t ++ NUL :: r) w = None.
Proof.
  intros filename t r w Ht Hlen Hf.
  unfold searchAndPlayWAV, with_local, bind at 1.
  replace (wav_filename (t ++ NUL :: r) filename) with (@None (unit * list byte));
    [reflexivity|].
  symmetry. unfold wav_filename. rewrite strlen_exact by assumption.
  unfold for_int. rewrite Z.min_r, Z.sub_0_r by lia.
  change (Z.to_nat 27) with 27%nat. unfold bind at 1.
  destruct (split_array filename 27 5) as (pre & mid & post & -> & Hpre & Hmid);
    [lia|].
  pose proof (copy_loop_exact (t ++ NUL :: r) 27 0 [] pre (mid ++ post)) as Hcopy.
  cbn [app length] in Hcopy. change (Z.of_nat 0) with 0 in Hcopy.
  rewrite Hcopy;
    [| reflexivity | assumption | rewrite length_app; cbn [length]; lia | lia].
  unfold bind at 1. unfold store.
  replace (in_array _ _) with false; [reflexivity|].
  symmetry. unfold in_array. apply andb_false_intro2. apply Z.ltb_ge.
  rewrite !length_app in *. unfold uppercase. rewrite length_map, length_firstn.
  cbn [skipn]. rewrite length_app. cbn [length]. lia.
Qed.

Lemma search_overruns_on_long_text_witness :
  searchAndPlayWAV (repeat xff 32) (repeat x41 32 ++ NUL :: [])
                   (booted x32 no_files)
  = None.
Proof.
  refine (search_overruns_on_long_text (repeat xff 32) (repeat x41 32) []
            (booted x32 no_files) _ _ _).
  - repeat constructor.
  - vm_compute. repeat constructor.
  - reflexivity.
Defined.

(** ** Case of the text *)

Lemma classify_uppercase (t : list byte) : classify (uppercase t) = classify t.
Proof. unfold classify. now rewrite uppercase_idempotent. Qed.

(** X7: the action on a tag does not depend on the case of its text, nor on
    what the text buffer holds behind the terminator: a text of at most 27
    characters and its uppercased form are dispatched alike. *)
Theorem dispatch_ignores_case :
  forall (e : Env) (t r r' : list byte) (w : World),
    NUL_free t -> (length t <= 27)%nat -> length (filename0 e) = 32%nat ->
    dispatch e (t ++ NUL :: r) w = dispatch e (uppercase t ++ NUL :: r') w.
Proof.
  intros e t r r' w Ht Hlen Hf.
  rewrite !dispatch_classify;
    try assumption;
    try (now apply uppercase_NUL_free);
    try (unfold uppercase; rewrite length_map; assumption).
  now rewrite classify_uppercase.
Qed.

Lemma dispatch_ignores_case_witness :
  dispatch (env_of_pages museum_pages) (bs "Museum" ++ NUL :: [])
           (booted x32 no_files)
  = dispatch (env_of_pages museum_pages)
             (uppercase (bs "Museum") ++ NUL :: [xff]) (booted x32 no_files).
Proof.
  refine (dispatch_ignores_case (env_of_pages museum_pages) (bs "Museum")
            [] [xff] (booted x32 no_files) _ _ _).
  - repeat constructor.
  - vm_compute. repeat constructor.
  - reflexivity.
Defined.

(** ** One cycle *)

Lemma volumeUp_step (w w' : World) :
  volumeUp w = Some (tt, w') -> cycle_step w w'.
Proof.
  rewrite volumeUp_after.
  destruct (F32.leb maxVolume (currentVolume w)).
  - intros [= <-]. do 3 eexists. split; [reflexivity|].
    destruct (sd_exists w (bs "VOLUMEMX.WAV")); (split; [cbn; lia|]);
      left; repeat split.
  - cbv zeta.
    destruct (F32.to_int (F32.mul (volume_after_up (currentVolume w))
                                  (F32.of_int 100))) as [z|] eqn:Hz;
      [|discriminate].
    intros [= <-]. do 3 eexists. split; [reflexivity|].
    destruct (sd_exists w (bs "VOLUMEUP.WAV")); (split; [cbn; lia|]);
      right; exists z; repeat split; exact Hz.
Qed.

Lemma volumeDown_step (w w' : World) :
  volumeDown w = Some (tt, w') -> cycle_step w w'.
Proof.
  rewrite volumeDown_after.
  destruct (F32.leb (currentVolume w) minVolume).
  - intros [= <-]. do 3 eexists. split; [reflexivity|].
    destruct (sd_exists w (bs "VOLUMEMN.WAV")); (split; [cbn; lia|]);
      left; repeat split.
  - cbv zeta.
    destruct (F32.to_int (F32.mul (volume_after_down (currentVolume w))
                                  (F32.of_int 100))) as [z|] eqn:Hz;
      [|discriminate].
    intros [= <-]. do 3 eexists. split; [reflexivity|].
    destruct (sd_exists w (bs "VOLUMEDN.WAV")); (split; [cbn; lia|]);
      right; exists z; repeat split; exact Hz.
Qed.

Lemma cycle_step_refl (w : World) : cycle_step w w.
Proof.
  exists (currentVolume w), (eeprom w), []. rewrite after_same.
  split; [reflexivity|]. split; [cbn; lia|]. left. repeat split.
Qed.

Lemma search_step (e : Env) (u : list byte) (w w' : World) :
  (found <- searchAndPlayWAV (filename0 e) u ;;
   if found then ret tt else playNoMatch) w = Some (tt, w') ->
  cycle_step w w'.
Proof.
  unfold bind at 1.
  destruct (searchAndPlayWAV (filename0 e) u w) as [[found w1]|] eqn:Hs;
    [|discriminate].
  apply searchAndPlayWAV_quiet in Hs as [-> _].
  destruct found.
  - intros [= <-]. do 3 eexists. split; [reflexivity|].
    split; [cbn; lia|]. left. repeat split.
  - unfold playNoMatch, bind. rewrite play_if_exists_after.
    intros [= <-]. rewrite after_after.
    cbn [after currentVolume eeprom sd_exists app].
    do 3 eexists. split; [reflexivity|].
    destruct (sd_exists w (bs "NOMATCH.WAV")); (split; [cbn; lia|]);
      left; repeat split.
Qed.

Lemma dispatch_step (e : Env) (t : list byte) (w w' : World) :
  dispatch e t w = Some (tt, w') -> cycle_step w w'.
Proof.
  unfold dispatch.
  destruct (upper_in_place t) as [u|]; [|discriminate].
  destruct (strcmp u (literal "VOLUMEUP")) as [[|p|p]|]; try discriminate;
    try apply volumeUp_step;
    (destruct (strcmp u (literal "VOLUMEDN")) as [[|q|q]|]; try discriminate;
     try apply volumeDown_step);
    apply search_step.
Qed.

Lemma loop_step (e : Env) (w w' : World) :
  loop e w = Some (tt, w') -> cycle_step w w'.
Proof.
  unfold loop. destruct (tag e) as [uidLength|].
  - destruct (uidLength =? 7).
    + unfold bind at 1. unfold with_local at 1.
      destruct (for_int 4 10 (read_page e) (allData0 e, 0))
        as [[brk [allData dataIndex]]|]; [|discriminate].
      destruct ((match brk with Some _ => false | None => true end)
                && (0 <? dataIndex)).
      * unfold bind, with_local.
        destruct (parseNDEFTextRecord allData dataIndex 128 (textBuffer0 e))
          as [[found t]|]; [|discriminate].
        cbn [fst snd]. destruct found.
        -- apply dispatch_step.
        -- intros [= <-]. apply cycle_step_refl.
      * intros [= <-]. apply cycle_step_refl.
    + rewrite emit_after. intros [= <-]. do 3 eexists.
      split; [reflexivity|]. split; [cbn; lia|]. left. repeat split.
  - intros [= <-]. apply cycle_step_refl.
Qed.

(** X8: whatever the tag, one cycle plays at most one file and writes the
    EEPROM at most once; a cycle that writes nothing leaves the volume and
    the EEPROM as they were, and no cycle changes what the card holds. *)
Theorem cycle_plays_and_writes_at_most_once :
  forall (e : Env) (w w' : World),
    loop e w = Some (tt, w') ->
    exists evs,
      events w' = events w ++ evs
      /\ sd_exists w' = sd_exists w
      /\ (length (plays evs) <= 1)%nat
      /\ (length (eeprom_writes evs) <= 1)%nat
      /\ (eeprom_writes evs = [] ->
          currentVolume w' = currentVolume w /\ eeprom w' = eeprom w).
Proof.
  intros e w w' Hloop.
  apply loop_step in Hloop as (v & cells & evs & -> & Hplays & Hcase).
  exists evs. split; [reflexivity|]. split; [reflexivity|].
  split; [assumption|].
  destruct Hcase as [(-> & -> & Hw & _) | (z & _ & _ & Hw & _)]; rewrite Hw.
  - split; [cbn; lia|]. intros _. split; reflexivity.
  - split; [cbn; lia|]. discriminate.
Qed.

Lemma cycle_plays_and_writes_at_most_once_witness :
  exists evs,
    events (run_cycle (env_of_pages volume_down_pages) (booted x32 no_files))
    = events (booted x32 no_files) ++ evs
    /\ sd_exists (run_cycle (env_of_pages volume_down_pages) (booted x32 no_files))
       = sd_exists (booted x32 no_files)
    /\ (length (plays evs) <= 1)%nat
    /\ (length (eeprom_writes evs) <= 1)%nat
    /\ (eeprom_writes evs = [] ->
        currentVolume (run_cycle (env_of_pages volume_down_pages)
                                 (booted x32 no_files))
        = currentVolume (booted x32 no_files)
        /\ eeprom (run_cycle (env_of_pages volume_down_pages)
                             (booted x32 no_files))
           = eeprom (booted x32 no_files)).
Proof.
  refine (cycle_plays_and_writes_at_most_once
            (env_of_pages volume_down_pages) (booted x32 no_files) _ _).
  vm_compute. reflexivity.
Defined.

(** ** No cycle has undefined behaviour *)

(** The page loop stays inside [allData[24]]; without a [break] it read
    [n] pages and [dataIndex] moved by four bytes a page. *)
Lemma read_pages_defined (e : Env) (n : nat) :
  forall (i : Z) (allData : list byte) (dataIndex : Z),
    0 <= i -> i + Z.of_nat n <= 256 ->
    length allData = 24%nat ->
    0 <= dataIndex -> dataIndex + 4 * Z.of_nat n <= 24 ->
    exists brk allData' dataIndex',
      for_iter n i (read_page e) (allData, dataIndex)
      = Some (brk, (allData', dataIndex'))
      /\ length allData' = 24%nat
      /\ (brk = None -> dataIndex' = dataIndex + 4 * Z.of_nat n).
Proof.
  induction n as [|n IH]; intros i allData dataIndex Hi Hn Hcap Hidx Hroom.
  - exists None, allData, dataIndex.
    split; [reflexivity|]. split; [assumption|]. intros _. lia.
  - cbn [for_iter]. unfold bind, read_page at 1.
    destruct (page e i) as [[[[b0 b1] b2] b3]|].
    + rewrite (add_small i 1) by (unfold CInt.INT_MIN, CInt.INT_MAX; lia).
      rewrite (add_small dataIndex 4) by (unfold CInt.INT_MIN, CInt.INT_MAX; lia).
      replace (dataIndex + 4 <=? 24) with true by (symmetry; apply Z.leb_le; lia).
      destruct (store_all_defined [b0; b1; b2; b3] dataIndex allData)
        as (a' & Hs & Hl); [lia | cbn [length]; lia |].
      rewrite Hs.
      destruct (IH (i + 1) a' (dataIndex + 4)) as (brk & a'' & d'' & Hrun & Hl' & Hd);
        try lia.
      exists brk, a'', d''. split; [assumption|]. split; [assumption|].
      intros Hb. rewrite (Hd Hb). lia.
    + exists (Some tt), allData, dataIndex.
      split; [reflexivity|]. split; [assumption | discriminate].
Qed.

Lemma volume_commands_defined (w : World) :
  mem (currentVolume w) volumes = true ->
  (exists w', volumeUp w = Some (tt, w'))
  /\ (exists w', volumeDown w = Some (tt, w')).
Proof.
  intros Hm. destruct (step_check_facts _ Hm) as (_ & _ & _ & Hup & Hdn).
  split.
  - rewrite volumeUp_after.
    destruct (F32.leb maxVolume (currentVolume w)) eqn:Hmax; [eexists; reflexivity|].
    destruct (Hup eq_refl) as [_ [z Hz]]. cbv zeta.
    unfold persisted in Hz. rewrite Hz. eexists; reflexivity.
  - rewrite volumeDown_after.
    destruct (F32.leb (currentVolume w) minVolume) eqn:Hmin; [eexists; reflexivity|].
    destruct (Hdn eq_refl) as [_ [z Hz]]. cbv zeta.
    unfold persisted in Hz. rewrite Hz. eexists; reflexivity.
Qed.

Lemma perform_defined (c : Command) (w : World) :
  mem (currentVolume w) volumes = true ->
  exists w', perform c w = Some (tt, w').
Proof.
  intros Hm. destruct (volume_commands_defined w Hm) as [Hup Hdn].
  destruct c as [| |name]; cbn [perform]; [assumption | assumption |].
  unfold bind. rewrite play_if_exists_after.
  destruct (sd_exists w name); [eexists; reflexivity|].
  unfold playNoMatch, bind. rewrite play_if_exists_after. eexists; reflexivity.
Qed.

(** The text buffer after a successful decoding of a buffer of at most 32
    bytes holds a C string of at most 27 characters. *)
Lemma decoded_text_shape (data out out' : list byte) :
  (length data <= 32)%nat -> 128 <= Z.of_nat (length out) ->
  parseNDEFTextRecord data (Z.of_nat (length data)) 128 out = Some (true, out') ->
  exists t r, out' = t ++ NUL :: r /\ NUL_free t /\ (length t <= 27)%nat.
Proof.
  intros Hdata Hout Hparse.
  assert (Hlen : Z.of_nat (length data) <= MAX_DATA_LENGTH)
    by (unfold MAX_DATA_LENGTH, CInt.INT_MAX; lia).
  destruct (parse_success _ _ _ _ Hlen Hout Hparse) as (j & Hj & Hacc & ->).
  destruct (accepts_lengths data 128 j (proj1 Hj) Hacc)
    as (Hn & _ & Hstart & Hfit & Htl).
  unfold written.
  destruct (c_string_split (text_at data j)
              (skipn (length (text_at data j) + 1) out))
    as (t & r & -> & Hfree & Hshort).
  exists t, r. split; [reflexivity|]. split; [assumption | lia].
Qed.

(** A cycle runs to its end when the volume is one of [volumes]. *)
Lemma loop_defined (e : Env) (w : World) :
  well_formed_env e -> mem (currentVolume w) volumes = true ->
  exists w', loop e w = Some (tt, w').
Proof.
  intros (Hall & Htb & Hfn) Hm.
  unfold loop. destruct (tag e) as [uidLength|]; [|eexists; reflexivity].
  destruct (uidLength =? 7); [|rewrite emit_after; eexists; reflexivity].
  destruct (read_pages_defined e 6 4 (allData0 e) 0)
    as (brk & allData & dataIndex & Hrun & Hl & Hd); try lia.
  unfold bind at 1. unfold with_local at 1, for_int.
  change (Z.to_nat (10 - 4)) with 6%nat. rewrite Hrun.
  destruct brk as [[]|]; [eexists; reflexivity|].
  rewrite (Hd eq_refl). cbn [andb]. change (0 <? 0 + 4 * Z.of_nat 6) with true.
  cbv iota. change (0 + 4 * Z.of_nat 6) with (Z.of_nat 24). rewrite <- Hl.
  unfold bind, with_local.
  destruct (parseNDEFTextRecord allData (Z.of_nat (length allData)) 128
              (textBuffer0 e)) as [[found t]|] eqn:Hparse.
  - cbn [fst snd]. destruct found; [|eexists; reflexivity].
    destruct (decoded_text_shape allData (textBuffer0 e) t)
      as (u & r & -> & Hfree & Hshort); [lia | lia | assumption |].
    rewrite dispatch_classify by assumption.
    now apply perform_defined.
  - rewrite parse_ok in Hparse
      by (unfold MAX_DATA_LENGTH, CInt.INT_MAX; lia).
    discriminate.
Qed.

(** X9: no poll cycle has undefined behaviour.  In every reachable state and
    for every tag, page contents and initial contents of the local arrays,
    [loop()] runs to its end: every access to [allData[24]],
    [textBuffer[128]] and [filename[32]] is inside the array and every
    conversion of the volume to [int] is defined. *)
Theorem cycle_is_safe :
  forall (e : Env) (w : World),
    well_formed_env e -> reachable w ->
    exists w', loop e w = Some (tt, w').
Proof.
  intros e w He [stored Hr].
  apply loop_defined; [assumption|]. eapply reachable_volume; eauto.
Qed.

Lemma cycle_is_safe_witness :
  exists w', loop (env_of_pages museum_pages) (booted x32 no_files)
             = Some (tt, w').
Proof.
  refine (cycle_is_safe (env_of_pages museum_pages) (booted x32 no_files) _ _).
  - repeat split.
  - exists x32. apply booted_reachable.
Defined.

(** ** The stored volume *)

Lemma stored_check_boot_all (stored : byte) : stored_check_boot stored = true.
Proof. destruct stored; vm_compute; reflexivity. Qed.

Lemma stored_check_step_all : forallb stored_check_step volumes = true.
Proof. vm_compute. reflexivity. Qed.

Lemma ten_up_all :
  forallb (fun v => float_eqb (iterate 10 volume_after_up v) maxVolume) volumes
  = true.
Proof. vm_compute. reflexivity. Qed.

Lemma ten_down_all :
  forallb (fun v => F32.leb (iterate 10 volume_after_down v) minVolume) volumes
  = true.
Proof. vm_compute. reflexivity. Qed.

Lemma ten_down_exact_all :
  forallb (fun v => implb (F32.leb minVolume v)
                      (float_eqb (iterate 10 volume_after_down v) minVolume))
          volumes
  = true.
Proof. vm_compute. reflexivity. Qed.

(** The EEPROM cell of the volume after [loadVolumeFromEEPROM]. *)
Lemma loadVolumeFromEEPROM_cell (w w' : World) :
  loadVolumeFromEEPROM w = Some (tt, w') ->
  eeprom w' 0 = (if CInt.u8 (eeprom w 0) <=? 100 then eeprom w 0 else x32).
Proof.
  rewrite loadVolumeFromEEPROM_after. intros [= <-].
  destruct (CInt.u8 (eeprom w 0) <=? 100); reflexivity.
Qed.

(** The stored byte after a volume command agrees with the volume it
    leaves, when it agreed before. *)
Lemma command_keeps_agreement (w w' : World) :
  mem (currentVolume w) volumes = true ->
  stored_agrees (eeprom w 0) (currentVolume w) = true ->
  volumeUp w = Some (tt, w') \/ volumeDown w = Some (tt, w') ->
  stored_agrees (eeprom w' 0) (currentVolume w') = true.
Proof.
  intros Hm Hagree Hcmd.
  pose proof (volumes_forall _ stored_check_step_all _ Hm) as Hc.
  unfold stored_check_step in Hc. apply andb_prop in Hc as [Hup Hdn].
  destruct Hcmd as [H | H].
  - rewrite volumeUp_after in H.
    destruct (F32.leb maxVolume (currentVolume w)); [now injection H as <-|].
    cbv zeta in H. unfold persisted in Hup. cbn [orb] in Hup.
    destruct (F32.to_int _) as [z|]; [|discriminate].
    injection H as <-. exact Hup.
  - rewrite volumeDown_after in H.
    destruct (F32.leb (currentVolume w) minVolume); [now injection H as <-|].
    cbv zeta in H. unfold persisted in Hdn. cbn [orb] in Hdn.
    destruct (F32.to_int _) as [z|]; [|discriminate].
    injection H as <-. exact Hdn.
Qed.

Lemma reachable_agreement (stored : byte) (w : World) :
  reachable_from stored w ->
  stored_agrees (eeprom w 0) (currentVolume w) = true.
Proof.
  induction 1 as [w w' Hst Hload | w w' Hr IH Hup
                 | w w' Hr IH Hdn | e w w' Hr IH Hloop].
  - rewrite (loadVolumeFromEEPROM_cell _ _ Hload).
    rewrite (loadVolumeFromEEPROM_volume _ _ Hload).
    unfold EEPROM_VOLUME_ADDRESS.
    pose proof (stored_check_boot_all (eeprom w 0)) as Hc.
    unfold stored_check_boot in Hc. now apply andb_prop in Hc.
  - eapply command_keeps_agreement; eauto. eapply reachable_volume; eauto.
  - eapply command_keeps_agreement; eauto. eapply reachable_volume; eauto.
  - apply loop_cases in Hloop as [(evs & -> & _) | Hcmd].
    + exact IH.
    + eapply command_keeps_agreement; eauto. eapply reachable_volume; eauto.
Qed.

(** X10: the stored volume follows the volume in memory.  In every reachable
    state the byte stored at the volume's address is at most 100, so that
    the next start-up accepts it, and it is [round(100 v)] or one below it,
    [v] being the volume in memory. *)
Theorem stored_volume_follows_memory :
  forall (stored : byte) (w : World),
    reachable_from stored w ->
    CInt.u8 (eeprom w EEPROM_VOLUME_ADDRESS) <= 100
    /\ exists r,
         round_x100 (currentVolume w) = Some r
         /\ (CInt.u8 (eeprom w EEPROM_VOLUME_ADDRESS) = r
             \/ CInt.u8 (eeprom w EEPROM_VOLUME_ADDRESS) = r - 1).
Proof.
  intros stored w Hr. apply reachable_agreement in Hr.
  unfold stored_agrees in Hr. unfold EEPROM_VOLUME_ADDRESS.
  apply andb_prop in Hr as [Hle Hr]. apply Z.leb_le in Hle.
  split; [assumption|].
  destruct (round_x100 (currentVolume w)) as [r|]; [|discriminate].
  exists r. split; [reflexivity|].
  apply orb_prop in Hr as [H | H]; apply Z.eqb_eq in H; auto.
Qed.

Lemma stored_volume_follows_memory_witness :
  CInt.u8 (eeprom (booted xc8 no_files) EEPROM_VOLUME_ADDRESS) <= 100
  /\ exists r,
       round_x100 (currentVolume (booted xc8 no_files)) = Some r
       /\ (CInt.u8 (eeprom (booted xc8 no_files) EEPROM_VOLUME_ADDRESS) = r
           \/ CInt.u8 (eeprom (booted xc8 no_files) EEPROM_VOLUME_ADDRESS) = r - 1).
Proof.
  exact (stored_volume_follows_memory xc8 (booted xc8 no_files)
           (booted_reachable xc8 no_files)).
Defined.

(** X11: loading is idempotent.  A second [loadVolumeFromEEPROM] (the next
    start-up) finds a byte it accepts: it sets the same volume and writes
    nothing, also when the first one had to replace the stored byte. *)
Theorem load_twice :
  forall w : World,
    exists w1 w2,
      loadVolumeFromEEPROM w = Some (tt, w1)
      /\ loadVolumeFromEEPROM w1 = Some (tt, w2)
      /\ currentVolume w2 = currentVolume w1
      /\ eeprom w2 = eeprom w1
      /\ events w2 = events w1.
Proof.
  intros w.
  destruct (loadVolumeFromEEPROM w) as [[[] w1]|] eqn:H1;
    [|rewrite loadVolumeFromEEPROM_after in H1; discriminate].
  pose proof (loadVolumeFromEEPROM_cell _ _ H1) as Hcell.
  pose proof (loadVolumeFromEEPROM_volume _ _ H1) as Hvol.
  unfold EEPROM_VOLUME_ADDRESS in Hvol.
  pose proof (stored_check_boot_all (eeprom w 0)) as Hc.
  unfold stored_check_boot in Hc. apply andb_prop in Hc as [Hagree Hsame].
  apply float_eqb_eq in Hsame. rewrite <- Hcell in Hagree, Hsame.
  rewrite <- Hvol in Hagree, Hsame.
  unfold stored_agrees in Hagree. apply andb_prop in Hagree as [Hle _].
  exists w1. rewrite loadVolumeFromEEPROM_after, Hle.
  eexists. split; [reflexivity|]. split; [reflexivity|].
  cbn [after currentVolume eeprom events]. rewrite app_nil_r.
  repeat split. exact Hsame.
Qed.

(** ** Repeated volume commands *)

Lemma iterate_add {A} (f : A -> A) (a b : nat) (x : A) :
  iterate (a + b) f x = iterate b f (iterate a f x).
Proof. revert x; induction a as [|a IH]; intros x; cbn; [reflexivity | apply IH]. Qed.

Lemma iterate_fixed {A} (f : A -> A) (n : nat) (x : A) :
  f x = x -> iterate n f x = x.
Proof. intros H. induction n as [|n IH]; cbn; [reflexivity | now rewrite H]. Qed.

Lemma iterate_beyond {A} (f : A -> A) (k n : nat) (x : A) :
  (k <= n)%nat -> f (iterate k f x) = iterate k f x ->
  iterate n f x = iterate k f x.
Proof.
  intros Hk Hfix. replace n with (k + (n - k))%nat by lia.
  rewrite iterate_add. now apply iterate_fixed.
Qed.

Lemma volume_after_up_at_maximum : volume_after_up maxVolume = maxVolume.
Proof. vm_compute. reflexivity. Qed.

Lemma repeat_volume_command (n : nat) :
  forall w : World,
    mem (currentVolume w) volumes = true ->
    (exists w', repeat_cmd n volumeUp w = Some (tt, w')
                /\ currentVolume w'
                   = iterate n volume_after_up (currentVolume w))
    /\ (exists w', repeat_cmd n volumeDown w = Some (tt, w')
                   /\ currentVolume w'
                      = iterate n volume_after_down (currentVolume w)).
Proof.
  induction n as [|n IH]; intros w Hm.
  - split; exists w; split; reflexivity.
  - destruct (volume_commands_defined w Hm) as [[wu Hu] [wd Hd]].
    destruct (step_check_facts _ Hm) as ((Hmu & Hmd) & _).
    pose proof (volumeUp_volume _ _ Hu) as Hvu.
    pose proof (volumeDown_volume _ _ Hd) as Hvd.
    rewrite <- Hvu in Hmu. rewrite <- Hvd in Hmd.
    destruct (IH wu Hmu) as [(w' & Hrun & Hv) _].
    destruct (IH wd Hmd) as [_ (w'' & Hrun' & Hv')].
    cbn [repeat_cmd iterate]. unfold bind. rewrite Hu, Hd. split.
    + exists w'. split; [assumption|]. now rewrite Hv, Hvu.
    + exists w''. split; [assumption|]. now rewrite Hv', Hvd.
Qed.

(** X12: ten volume-up tags in a row bring the device to [maxVolume],
    exactly, from any reachable state, and more of them keep it there. *)
Theorem volume_up_reaches_maximum :
  forall (w : World) (n : nat),
    reachable w -> (10 <= n)%nat ->
    exists w',
      repeat_cmd n volumeUp w = Some (tt, w')
      /\ currentVolume w' = maxVolume.
Proof.
  intros w n [stored Hr] Hn.
  destruct (reachable_volume stored w Hr) as [Hm _].
  destruct (proj1 (repeat_volume_command n w Hm)) as (w' & Hrun & Hv).
  exists w'. split; [assumption|]. rewrite Hv.
  pose proof (volumes_forall _ ten_up_all _ Hm) as Hup.
  cbv beta in Hup. apply float_eqb_eq in Hup.
  rewrite (iterate_beyond volume_after_up 10 n) by
    (try assumption; rewrite Hup; apply volume_after_up_at_maximum).
  exact Hup.
Qed.

Lemma volume_up_reaches_maximum_witness :
  exists w',
    repeat_cmd 12 volumeUp (booted x00 no_files) = Some (tt, w')
    /\ currentVolume w' = maxVolume.
Proof.
  refine (volume_up_reaches_maximum (booted x00 no_files) 12 _ _).
  - exists x00. apply booted_reachable.
  - repeat constructor.
Defined.

(** X13: ten volume-down tags in a row bring the device to [minVolume],
    exactly, from any reachable state whose volume is not below it, and
    more of them keep it there; a volume below [minVolume] (from a stored
    byte under 10) is never raised by them. *)
Theorem volume_down_reaches_minimum :
  forall (w : World) (n : nat),
    reachable w -> (10 <= n)%nat ->
    exists w',
      repeat_cmd n volumeDown w = Some (tt, w')
      /\ F32.leb (currentVolume w') minVolume = true
      /\ (F32.leb minVolume (currentVolume w) = true ->
          currentVolume w' = minVolume).
Proof.
  intros w n [stored Hr] Hn.
  destruct (reachable_volume stored w Hr) as [Hm _].
  destruct (proj2 (repeat_volume_command n w Hm)) as (w' & Hrun & Hv).
  exists w'. split; [assumption|]. rewrite Hv.
  pose proof (volumes_forall _ ten_down_all _ Hm) as Hlow.
  pose proof (volumes_forall _ ten_down_exact_all _ Hm) as Hexact.
  cbv beta in Hlow, Hexact.
  remember (iterate 10 volume_after_down (currentVolume w)) as v10 eqn:Hv10.
  assert (Hfix : volume_after_down v10 = v10)
    by (unfold volume_after_down; now rewrite Hlow).
  rewrite (iterate_beyond volume_after_down 10 n) by
    (try assumption; rewrite <- Hv10; exact Hfix).
  rewrite <- Hv10. split; [assumption|].
  intros Hmin. rewrite Hmin, Bool.implb_true_l in Hexact.
  now apply float_eqb_eq in Hexact.
Qed.

Lemma volume_down_reaches_minimum_witness :
  exists w',
    repeat_cmd 10 volumeDown (booted x64 no_files) = Some (tt, w')
    /\ F32.leb (currentVolume w') minVolume = true
    /\ (F32.leb minVolume (currentVolume (booted x64 no_files)) = true ->
        currentVolume w' = minVolume).
Proof.
  refine (volume_down_reaches_minimum (booted x64 no_files) 10 _ _).
  - exists x64. apply booted_reachable.
  - repeat constructor.
Defined.

(** ** Start-up *)

Lemma set_gains_after (w : World) :
  set_gains w
  = Some (tt, after w (currentVolume w) (eeprom w)
                [MixerGain 1 0 (currentVolume w);
                 MixerGain 2 0 (currentVolume w)]).
Proof.
  unfold set_gains, bind, get, emit, modify, after.
  cbn [currentVolume eeprom sd_exists events].
  rewrite <- app_assoc. reflexivity.
Qed.

Lemma gains_app (a b : list Event) : gains (a ++ b) = gains a ++ gains b.
Proof.
  induction a as [|x a IH]; [reflexivity|].
  destruct x; cbn [app gains]; rewrite IH; reflexivity.
Qed.

Lemma wait_for_Serial_log (polls : nat) (b : Boot) :
  wait_for_Serial polls b
  = Some (tt, {| world := world b; console := console b;
                 peripherals := peripherals b ++ repeat (Delay 10) polls |}).
Proof.
  revert b. induction polls as [|n IH]; intros b.
  - cbn [wait_for_Serial repeat]. rewrite app_nil_r. now destruct b.
  - cbn [wait_for_Serial repeat]. unfold bind, call, modify. rewrite IH.
    cbn [world console peripherals]. now rewrite <- app_assoc.
Qed.

(** On a port that never opens [setup()] does not get beyond its wait. *)
Lemma setup_waits (env : SetupEnv) (w : World) :
  serial_ready env = None ->
  setup env (power_on w)
  = Some (false, {| world := w; console := [];
                    peripherals := [SerialBegin 115200] |}).
Proof. intros Hnever. unfold setup. rewrite Hnever. reflexivity. Qed.

(** The world [setup()] leaves once the port is open: the volume is loaded,
    both gains are set to it, and the start-up sound is played when
    [setup()] comes to its end and the card has it. *)
Lemma setup_world (env : SetupEnv) (w : World) (polls : nat) :
  serial_ready env = Some polls ->
  exists b heal,
    setup env (power_on w)
    = Some (sd_begin env && negb (versiondata env mod 4294967296 =? 0), b)
    /\ world b
       = after w (volume_loaded (eeprom w 0))
           (if CInt.u8 (eeprom w 0) <=? 100 then eeprom w
            else cells_written (eeprom w) 0 50)
           (heal
            ++ [MixerGain 1 0 (volume_loaded (eeprom w 0));
                MixerGain 2 0 (volume_loaded (eeprom w 0))]
            ++ (if sd_begin env && negb (versiondata env mod 4294967296 =? 0)
                   && sd_exists w (bs "STARTUP.WAV")
                then [Play (bs "STARTUP.WAV")] else []))
    /\ heal = (if CInt.u8 (eeprom w 0) <=? 100 then []
               else [EepromWrite 0 x32])
    /\ (sd_begin env = false -> ~ In NfcBegin (peripherals b)).
Proof.
  intros Hready. unfold setup. rewrite Hready.
  unfold bind at 1 2. unfold call at 1. unfold modify, power_on.
  rewrite wait_for_Serial_log.
  unfold bind, call, Serial_println, Serial_print, modify, in_world.
  cbn [world console peripherals].
  rewrite loadVolumeFromEEPROM_after. cbn [world console peripherals].
  rewrite set_gains_after. cbn [world console peripherals].
  destruct (sd_begin env); cbn [negb andb].
  - cbv zeta. destruct (versiondata env mod 4294967296 =? 0); cbn [negb andb].
    + do 2 eexists. split; [reflexivity|]. cbn [world peripherals].
      split; [|split; [reflexivity | discriminate]].
      destruct (CInt.u8 (eeprom w 0) <=? 100);
        rewrite after_after; cbn [after currentVolume eeprom];
        rewrite ?app_nil_r; reflexivity.
    + rewrite play_if_exists_after.
      do 2 eexists. split; [reflexivity|]. cbn [world peripherals].
      split; [|split; [reflexivity | discriminate]].
      destruct (CInt.u8 (eeprom w 0) <=? 100);
        rewrite !after_after; cbn [after currentVolume eeprom sd_exists];
        rewrite <- ?app_assoc; reflexivity.
  - do 2 eexists. split; [reflexivity|]. cbn [world peripherals].
    split; [|split; [reflexivity|]].
    + destruct (CInt.u8 (eeprom w 0) <=? 100);
        rewrite after_after; cbn [after currentVolume eeprom];
        rewrite ?app_nil_r; reflexivity.
    + intros _ Hin. rewrite <- !app_assoc in Hin.
      cbn [app] in Hin. destruct Hin as [Hin | Hin]; [discriminate|].
      apply in_app_or in Hin as [Hin | Hin].
      * apply repeat_spec in Hin. discriminate.
      * cbn in Hin.
        repeat (destruct Hin as [Hin | Hin]; [discriminate|]). exact Hin.
Qed.

Lemma plays_gain_free (a b c : list Event) :
  (forall e, In e a -> exists x y, e = EepromWrite x y) ->
  (forall e, In e b -> exists m ch g, e = MixerGain m ch g) ->
  plays (a ++ b ++ c) = plays c /\ gains (a ++ b ++ c) = gains b ++ gains c.
Proof.
  intros Ha Hb.
  assert (Hpa : plays a = [] /\ gains a = []).
  { induction a as [|x a IH]; [split; reflexivity|].
    destruct (Ha x (or_introl eq_refl)) as (p & q & ->). cbn [plays gains].
    apply IH. intros e He. apply Ha. now right. }
  assert (Hpb : forall l, plays (b ++ l) = plays l).
  { intros l. induction b as [|x b IH]; [reflexivity|].
    destruct (Hb x (or_introl eq_refl)) as (m & ch & g & ->). cbn [app plays].
    apply IH. intros e He. apply Hb. now right. }
  split.
  - clear Hb. induction a as [|x a IH]; cbn [app]; [apply Hpb|].
    destruct (Ha x (or_introl eq_refl)) as (p & q & ->). cbn [plays].
    apply IH; [intros e He; apply Ha; now right|].
    cbn [plays gains] in Hpa. exact Hpa.
  - rewrite !gains_app. now rewrite (proj2 Hpa).
Qed.

(** X14: the conditions under which [setup()] comes to its end.  It does
    so exactly when the host opens the serial port, [SD.begin] succeeds and
    the reader reports a firmware version other than 0; otherwise control
    never leaves it.  On a port that never opens nothing happens beyond
    [Serial.begin]: the volume is not loaded, nothing is printed, no other
    peripheral is touched.  Once the port is open, the volume was loaded
    from the EEPROM and both mixer gains were set to it, whether [setup()]
    then stops or not; the start-up sound is the only file played, and only
    when [setup()] comes to its end and the card has it; the reader is not
    touched when the card cannot be accessed. *)
Theorem setup_fatal_conditions :
  forall (env : SetupEnv) (w : World),
    exists b,
      setup env (power_on w)
      = Some (is_some (serial_ready env) && sd_begin env
              && negb (versiondata env mod 4294967296 =? 0), b)
      /\ match serial_ready env with
         | None =>
             world b = w /\ console b = []
             /\ peripherals b = [SerialBegin 115200]
         | Some polls =>
             exists evs,
               events (world b) = events w ++ evs
               /\ currentVolume (world b)
                  = volume_loaded (eeprom w EEPROM_VOLUME_ADDRESS)
               /\ gains evs = [(1%nat, 0, currentVolume (world b));
                               (2%nat, 0, currentVolume (world b))]
               /\ plays evs
                  = (if sd_begin env
                        && negb (versiondata env mod 4294967296 =? 0)
                        && sd_exists w (bs "STARTUP.WAV")
                     then [bs "STARTUP.WAV"] else [])
               /\ (sd_begin env = false -> ~ In NfcBegin (peripherals b))
         end.
Proof.
  intros env w. destruct (serial_ready env) as [polls|] eqn:Hready.
  2:{ eexists. split; [now apply setup_waits|]. repeat split. }
  destruct (setup_world env w polls Hready)
    as (b & heal & Hrun & Hworld & Hheal & Hnfc).
  exists b. split; [exact Hrun|]. eexists. rewrite Hworld.
  cbn [after events currentVolume]. split; [reflexivity|].
  split; [reflexivity|].
  destruct (plays_gain_free heal
              [MixerGain 1 0 (volume_loaded (eeprom w 0));
               MixerGain 2 0 (volume_loaded (eeprom w 0))]
              (if sd_begin env && negb (versiondata env mod 4294967296 =? 0)
                  && sd_exists w (bs "STARTUP.WAV")
               then [Play (bs "STARTUP.WAV")] else [])) as [Hp Hg].
  - intros e He. rewrite Hheal in He.
    destruct (CInt.u8 (eeprom w 0) <=? 100); [contradiction|].
    destruct He as [<- | []]. now do 2 eexists.
  - intros e [<- | [<- | []]]; now do 3 eexists.
  - rewrite Hp, Hg. split; [|split; [|exact Hnfc]].
    + destruct (_ && sd_exists w (bs "STARTUP.WAV")); reflexivity.
    + destruct (_ && sd_exists w (bs "STARTUP.WAV")); reflexivity.
Qed.

Lemma last_gains_app (a b : list Event) :
  last_gains (a ++ b)
  = fold_left (fun acc g =>
                 match g with
                 | (1%nat, 0, level) => (Some level, snd acc)
                 | (2%nat, 0, level) => (fst acc, Some level)
                 | _ => acc
                 end) (gains b) (last_gains a).
Proof. unfold last_gains. now rewrite gains_app, fold_left_app. Qed.

(** X15: the mixers follow the volume.  Once [setup()] came to its end, and
    after any number of cycles, both mixer gains were last set to the volume
    in memory. *)
Theorem gains_follow_volume :
  forall w : World,
    running w ->
    last_gains (events w) = (Some (currentVolume w), Some (currentVolume w)).
Proof.
  induction 1 as [env w b Hsetup | e w w' Hrun IH Hloop].
  - destruct (serial_ready env) as [polls|] eqn:Hready;
      [|rewrite setup_waits in Hsetup by assumption; discriminate].
    destruct (setup_world env w polls Hready)
      as (b' & heal & Hrun & Hworld & Hheal & _).
    rewrite Hsetup in Hrun. injection Hrun as _ <-.
    rewrite Hworld. cbn [after events currentVolume].
    rewrite last_gains_app.
    match goal with |- context [gains (heal ++ ?g ++ ?t)] =>
      destruct (plays_gain_free heal g t) as [_ Hg] end.
    + intros e He. rewrite Hheal in He.
      destruct (CInt.u8 (eeprom w 0) <=? 100); [contradiction|].
      destruct He as [<- | []]. now do 2 eexists.
    + intros e [<- | [<- | []]]; now do 3 eexists.
    + rewrite Hg.
      destruct (_ && sd_exists w (bs "STARTUP.WAV")); reflexivity.
  - apply loop_step in Hloop as (v & cells & evs & -> & _ & Hcase).
    cbn [after events currentVolume]. rewrite last_gains_app.
    destruct Hcase as [(-> & _ & _ & Hg) | (z & _ & _ & _ & Hg)]; rewrite Hg.
    + exact IH.
    + reflexivity.
Qed.

Lemma gains_follow_volume_witness :
  last_gains (events (run_cycle (env_of_pages volume_down_pages)
                                (started env_pn532 (boot_world xc8 no_files))))
  = (Some (currentVolume (run_cycle (env_of_pages volume_down_pages)
                                    (started env_pn532 (boot_world xc8 no_files)))),
     Some (currentVolume (run_cycle (env_of_pages volume_down_pages)
                                    (started env_pn532 (boot_world xc8 no_files))))).
Proof.
  refine (gains_follow_volume _ _).
  apply run_loop with (e := env_of_pages volume_down_pages)
                      (w := started env_pn532 (boot_world xc8 no_files)).
  - unfold started.
    apply (run_setup env_pn532 (boot_world xc8 no_files)
             (boot_of env_pn532 (boot_world xc8 no_files))).
    vm_compute. reflexivity.
  - vm_compute. reflexivity.
Defined.

(** The console of a start-up with a PN532 of firmware 1.6. *)
Example setup_console :
  exists b,
    setup env_pn532 (power_on (boot_world x32 no_files)) = Some (true, b)
    /\ console b
       = bs "WAM NFC Audio Box" ++ [x0d; x0a]
         ++ bs "SD card initialized" ++ [x0d; x0a]
         ++ bs "Found chip PN532" ++ [x0d; x0a]
         ++ bs "Firmware ver. 1.6" ++ [x0d; x0a]
         ++ bs "Setup complete" ++ [x0d; x0a].
Proof. eexists. split; vm_compute; reflexivity. Qed.

(** ** The running device *)

Lemma running_volume (w : World) :
  running w -> mem (currentVolume w) volumes = true.
Proof.
  induction 1 as [env w b Hsetup | e w w' Hrun IH Hloop].
  - destruct (serial_ready env) as [polls|] eqn:Hready;
      [|rewrite setup_waits in Hsetup by assumption; discriminate].
    destruct (setup_world env w polls Hready)
      as (b' & heal & Hrun & Hworld & _).
    rewrite Hsetup in Hrun. injection Hrun as _ <-. rewrite Hworld.
    cbn [after currentVolume].
    pose proof (boot_check_all (eeprom w 0)) as Hc. unfold boot_check in Hc.
    apply andb_prop in Hc as [Hc _]. now apply andb_prop in Hc.
  - destruct (step_check_facts _ IH) as ((Hu & Hd) & _).
    apply loop_volume in Hloop as [-> | [-> | ->]]; assumption.
Qed.

(** X16: the running device is safe.  After [setup()] came to its end,
    every cycle, whatever tag it meets, runs to its end without undefined
    behaviour and leaves a running device, whose volume lies in
    [[0.0, maxVolume]]. *)
Theorem running_device_is_safe :
  forall (e : Env) (w : World),
    running w -> well_formed_env e ->
    F32.leb (F32.of_int 0) (currentVolume w) = true
    /\ F32.leb (currentVolume w) maxVolume = true
    /\ exists w', loop e w = Some (tt, w') /\ running w'.
Proof.
  intros e w Hrun He. pose proof (running_volume w Hrun) as Hm.
  destruct (step_check_facts _ Hm) as (_ & (Hzero & Hmax) & _).
  split; [assumption|]. split; [assumption|].
  destruct (loop_defined e w He Hm) as (w' & Hloop).
  exists w'. split; [assumption|]. eapply run_loop; eauto.
Qed.

Lemma running_device_is_safe_witness :
  F32.leb (F32.of_int 0)
          (currentVolume (started env_pn532 (boot_world xc8 no_files))) = true
  /\ F32.leb (currentVolume (started env_pn532 (boot_world xc8 no_files)))
             maxVolume = true
  /\ exists w',
       loop (env_of_pages museum_pages)
            (started env_pn532 (boot_world xc8 no_files)) = Some (tt, w')
       /\ running w'.
Proof.
  refine (running_device_is_safe (env_of_pages museum_pages)
            (started env_pn532 (boot_world xc8 no_files)) _ _).
  - unfold started.
    apply (run_setup env_pn532 (boot_world xc8 no_files)
             (boot_of env_pn532 (boot_world xc8 no_files))).
    vm_compute. reflexivity.
  - repeat split.
Defined.

(** ** From the tag to the action *)

Lemma firstn_plus {A} (a b : nat) (l : list A) :
  firstn (a + b) l = firstn a l ++ firstn b (skipn a l).
Proof.
  revert l; induction a as [|a IH]; intros l; [reflexivity|].
  destruct l as [|x l]; cbn [Nat.add firstn skipn app].
  - now rewrite firstn_nil.
  - now rewrite IH.
Qed.

Lemma four_bytes (data : list byte) (n : nat) :
  (n + 4 <= length data)%nat ->
  firstn 4 (skipn n data)
  = [nth n data x00; nth (n + 1) data x00; nth (n + 2) data x00;
     nth (n + 3) data x00].
Proof.
  intros H.
  rewrite (skipn_cons_nth n data x00) by lia.
  rewrite (skipn_cons_nth (S n) data x00) by lia.
  rewrite (skipn_cons_nth (S (S n)) data x00) by lia.
  rewrite (skipn_cons_nth (S (S (S n))) data x00) by lia.
  replace (n + 1)%nat with (S n) by lia.
  replace (n + 2)%nat with (S (S n)) by lia.
  replace (n + 3)%nat with (S (S (S n))) by lia.
  reflexivity.
Qed.

(** When every page answers, the page loop fills [allData] with the 24
    bytes of the pages. *)
Lemma read_pages_fill (e : Env) (data a0 : list byte) :
  pages_hold e data -> length a0 = 24%nat ->
  forall (n j : nat),
    (j + n = 6)%nat ->
    for_iter n (4 + Z.of_nat j) (read_page e)
      (firstn (4 * j) data ++ skipn (4 * j) a0, Z.of_nat (4 * j))
    = Some (None, (data, 24)).
Proof.
  intros [Hlen Hpages] Ha0.
  induction n as [|n IH]; intros j Hj.
  - assert (j = 6)%nat as -> by lia. cbn [for_iter]. unfold ret.
    rewrite firstn_all2, skipn_all2, app_nil_r by lia. reflexivity.
  - cbn [for_iter]. unfold bind, read_page at 1.
    rewrite (Hpages j) by lia.
    rewrite (add_small (Z.of_nat (4 * j)) 4)
      by (unfold CInt.INT_MIN, CInt.INT_MAX; lia).
    replace (Z.of_nat (4 * j) + 4 <=? 24) with true
      by (symmetry; apply Z.leb_le; lia).
    rewrite <- (firstn_skipn 4 (skipn (4 * j) a0)).
    replace (Z.of_nat (4 * j)) with (Z.of_nat (length (firstn (4 * j) data))) at 1
      by (rewrite length_firstn; lia).
    rewrite store_all_exact by (rewrite length_firstn, length_skipn; cbn [length]; lia).
    rewrite (add_small (4 + Z.of_nat j) 1)
      by (unfold CInt.INT_MIN, CInt.INT_MAX; lia).
    replace (4 + Z.of_nat j + 1) with (4 + Z.of_nat (S j)) by lia.
    replace (Z.of_nat (4 * j) + 4) with (Z.of_nat (4 * S j)) by lia.
    rewrite <- (IH (S j)) by lia.
    replace (4 * S j)%nat with (4 * j + 4)%nat by lia.
    rewrite firstn_plus, skipn_skipn, four_bytes by lia.
    rewrite <- app_assoc.
    replace (4 + 4 * j)%nat with (4 * j + 4)%nat by lia. reflexivity.
Qed.

(** A cycle on a 7-byte tag whose pages all answer decodes their 24 bytes
    and acts on the result. *)
Lemma loop_on_pages (e : Env) (data : list byte) (w : World) :
  well_formed_env e -> tag e = Some 7 -> pages_hold e data ->
  loop e w
  = match first_accepted data 24 128 18 0 with
    | Some j => dispatch e (written (textBuffer0 e) (text_at data j)) w
    | None => Some (tt, w)
    end.
Proof.
  intros (Hall & Htb & Hfn) Htag Hpages. pose proof Hpages as [Hlen _].
  unfold loop. rewrite Htag. cbn [Z.eqb Pos.eqb].
  unfold bind at 1. unfold with_local at 1, for_int.
  change (Z.to_nat (10 - 4)) with 6%nat.
  assert (Hfill : for_iter 6 4 (read_page e) (allData0 e, 0)
                  = Some (None, (data, 24)))
    by exact (read_pages_fill e data (allData0 e) Hpages Hall 6 0 eq_refl).
  rewrite Hfill. cbn [andb Z.ltb Z.compare]. unfold bind, with_local.
  replace 24 with (Z.of_nat (length data)) at 1 by (rewrite Hlen; reflexivity).
  rewrite parse_ok
    by (rewrite ?Hlen, ?Htb; unfold MAX_DATA_LENGTH, CInt.INT_MAX; lia).
  rewrite Hlen. change (Z.to_nat (Z.of_nat 24 - 6)) with 18%nat.
  change (Z.of_nat 24) with 24.
  destruct (first_accepted data 24 128 18 0); reflexivity.
Qed.

(** The record of a buffer built around it is accepted where it starts, and
    its text is the text the buffer was built from. *)
Lemma record_accepted (pad1 lang text pad2 : list byte) (len status : byte)
  (maxTextLength : Z) :
  let data := pad1 ++ [xd1; x01; len; x54; status] ++ lang ++ text ++ pad2 in
  CInt.u8 len = 1 + Z.of_nat (length lang) + Z.of_nat (length text) ->
  Z.land (CInt.u8 status) 0x3F = Z.of_nat (length lang) ->
  0 < Z.of_nat (length text) < maxTextLength ->
  accepts data (Z.of_nat (length data)) maxTextLength (Z.of_nat (length pad1))
  = true
  /\ text_at data (Z.of_nat (length pad1)) = text.
Proof.
  intros data Hpl Hst Htext.
  set (p := Z.of_nat (length pad1)).
  assert (Hb : forall k, 0 <= k ->
            byte_at data (p + k)
            = byte_at ([xd1; x01; len; x54; status] ++ lang ++ text ++ pad2) k)
    by (intros k Hk; apply byte_at_app; assumption).
  assert (Hh : has_header data p = true).
  { unfold has_header. rewrite <- (Z.add_0_r p) at 1.
    rewrite !Hb by lia. reflexivity. }
  assert (Hll : lang_length data p = Z.of_nat (length lang)).
  { unfold lang_length. rewrite Hb by lia. exact Hst. }
  assert (Htl : text_length data p = Z.of_nat (length text)).
  { unfold text_length. fold (lang_length data p). rewrite Hll, Hb by lia.
    change (byte_at _ 2) with len. lia. }
  assert (Hts : text_start data p = p + 5 + Z.of_nat (length lang)).
  { unfold text_start. now rewrite Hll. }
  assert (HL : Z.of_nat (length data)
               = p + 5 + Z.of_nat (length lang) + Z.of_nat (length text)
                 + Z.of_nat (length pad2)).
  { unfold data, p. rewrite !length_app. cbn [length]. lia. }
  split.
  - unfold accepts, lengths_ok. rewrite Hh, Htl, Hts. cbn [andb].
    repeat (apply andb_true_intro; split);
      [apply Z.ltb_lt | apply Z.ltb_lt | apply Z.leb_le]; lia.
  - unfold text_at. rewrite Htl, Hts, Nat2Z.id.
    replace (Z.to_nat (p + 5 + Z.of_nat (length lang)))
      with (length (pad1 ++ [xd1; x01; len; x54; status] ++ lang))
      by (unfold p; rewrite !length_app; cbn [length]; lia).
    replace data
      with ((pad1 ++ [xd1; x01; len; x54; status] ++ lang) ++ text ++ pad2)
      by (unfold data; rewrite <- !app_assoc; reflexivity).
    rewrite skipn_app, skipn_all, Nat.sub_diag. cbn [skipn app].
    rewrite firstn_app, firstn_all, Nat.sub_diag. cbn [firstn].
    apply app_nil_r.
Qed.

(** X17: from the tag to the action.  A 7-byte tag whose pages 4 to 9 all
    answer and hold a text record (the record's header, a language code and
    a text without NUL, with nothing that decodes before it) makes the cycle
    do what the classifier says of the text: the volume command, or the
    asset [TEXT.WAV], or the no-match sound. *)
Theorem tag_text_is_acted_on :
  forall (e : Env) (w : World) (pad1 lang text pad2 : list byte)
         (len status : byte),
    well_formed_env e -> tag e = Some 7 ->
    pages_hold e (pad1 ++ [xd1; x01; len; x54; status] ++ lang ++ text ++ pad2) ->
    CInt.u8 len = 1 + Z.of_nat (length lang) + Z.of_nat (length text) ->
    Z.land (CInt.u8 status) 0x3F = Z.of_nat (length lang) ->
    (0 < length text)%nat -> (length pad1 < 18)%nat ->
    (forall k, 0 <= k < Z.of_nat (length pad1) ->
       accepts (pad1 ++ [xd1; x01; len; x54; status] ++ lang ++ text ++ pad2)
               24 128 k = false) ->
    NUL_free text ->
    loop e w = perform (classify text) w.
Proof.
  intros e w pad1 lang text pad2 len status He Htag Hpages Hpl Hst Hpos Hp
         Hclean Hfree.
  pose proof Hpages as [Hlen _]. pose proof He as (_ & _ & Hfn).
  assert (Hshort : (length text <= 27)%nat)
    by (rewrite !length_app in Hlen; cbn [length] in Hlen; lia).
  rewrite (loop_on_pages e _ w He Htag Hpages).
  destruct (record_accepted pad1 lang text pad2 len status 128 Hpl Hst)
    as [Hacc Htxt]; [lia|].
  rewrite Hlen in Hacc. change (Z.of_nat 24) with 24 in Hacc.
  rewrite (first_accepted_least _ _ _ 18 0 (Z.of_nat (length pad1)));
    [| lia | assumption | intros k Hk; apply Hclean; lia].
  rewrite Htxt. unfold written.
  now apply dispatch_classify.
Qed.

Lemma tag_text_is_acted_on_witness :
  loop (env_of_pages museum_pages) (booted x32 (fun _ => true))
  = perform (classify (bs "museum")) (booted x32 (fun _ => true)).
Proof.
  refine (tag_text_is_acted_on (env_of_pages museum_pages)
            (booted x32 (fun _ => true)) [x03; x0d] (bs "en") (bs "museum")
            [xfe; x00; x00; x00; x00; x00; x00; x00; x00] x09 x02
            _ _ _ _ _ _ _ _ _).
  - repeat split.
  - reflexivity.
  - split; [reflexivity|]. intros k Hk.
    do 6 (destruct k as [|k]; [reflexivity|]). lia.
  - reflexivity.
  - reflexivity.
  - vm_compute. repeat constructor.
  - vm_compute. repeat constructor.
  - intros k Hk. assert (Hc : k = 0 \/ k = 1) by (cbn [length] in Hk; lia).
    destruct Hc as [-> | ->]; reflexivity.
  - repeat constructor.
Defined.

(** X18: a tag without a decodable record is ignored in silence.  When the
    pages of a 7-byte tag all answer and no offset 0 to 17 of their 24 bytes
    has the header with lengths that pass the checks, the cycle does
    nothing: no sound, the no-match sound included, and no write. *)
Theorem undecodable_tag_is_ignored :
  forall (e : Env) (data : list byte) (w : World),
    well_formed_env e -> tag e = Some 7 -> pages_hold e data ->
    (forall k, 0 <= k <= 17 -> accepts data 24 128 k = false) ->
    loop e w = Some (tt, w).
Proof.
  intros e data w He Htag Hpages Hnone.
  rewrite (loop_on_pages e data w He Htag Hpages).
  rewrite first_accepted_None; [reflexivity|].
  intros k Hk. apply Hnone. lia.
Qed.

Lemma undecodable_tag_is_ignored_witness :
  loop (env_of_pages buffer_blank) (booted x32 (fun _ => true))
  = Some (tt, booted x32 (fun _ => true)).
Proof.
  refine (undecodable_tag_is_ignored (env_of_pages buffer_blank) buffer_blank
            (booted x32 (fun _ => true)) _ _ _ _).
  - repeat split.
  - reflexivity.
  - split; [reflexivity|]. intros k Hk.
    do 6 (destruct k as [|k]; [reflexivity|]). lia.
  - intros k Hk.
    assert (Hc : exists n, (n < 18)%nat /\ k = Z.of_nat n)
      by (exists (Z.to_nat k); lia).
    destruct Hc as (n & Hn & ->).
    do 18 (destruct n as [|n]; [reflexivity|]). lia.
Defined.
